(** * ndraster: a shallow embedding of [NdRaster] (dist/ndraster.cjs.js)

    The development follows the CommonJS build, the fullest of the bundled
    builds.  JavaScript values are represented as follows.

    - A Number is a [number]: NaN, the two infinities, or an exact rational.
      Every double is such a rational; the arithmetic operators of the
      source ([-], [/], unary minus in the dtype registry) round their exact
      result to the nearest double ([fl64]), and a store into a
      [Float32Array] rounds to single precision ([fround]).
    - Shapes, strides, positions and slice boundaries are sequences of
      integers ([list Z]); offsets are computed in [Z].  (On integers below
      2^53 the double arithmetic of the source is exact.)
    - A typed array is a dtype tag and the list of its elements; typed
      arrays live in a [heap] and are referred to by location, so that two
      references to one array see each other's writes.
    - Every [throw] of the source is an [error]; a method that can throw
      returns a [result]. *)

From Stdlib Require Import ZArith QArith Qround Qabs Lia String.
From stdpp Require Import base list.

Local Open Scope Z_scope.

(** ** Numbers *)

Inductive number : Type :=
| NaN
| NegInf
| PosInf
| Fin (q : Q).

Definition Qlt_bool (x y : Q) : bool := negb (Qle_bool y x).

(** [a < b] on Numbers: every comparison with NaN is false. *)
Definition num_lt (a b : number) : bool :=
  match a, b with
  | NaN, _ | _, NaN => false
  | NegInf, NegInf => false
  | NegInf, _ => true
  | _, NegInf => false
  | PosInf, _ => false
  | Fin _, PosInf => true
  | Fin x, Fin y => Qlt_bool x y
  end.

(** [a > b] is [b < a]. *)
Definition num_gt (a b : number) : bool := num_lt b a.

(** [a === b] on Numbers. *)
Definition num_eqb (a b : number) : bool :=
  match a, b with
  | NegInf, NegInf | PosInf, PosInf => true
  | Fin x, Fin y => Qeq_bool x y
  | _, _ => false
  end.

Definition of_Z (z : Z) : number := Fin (inject_Z z).

(** Truncation toward zero of a rational. *)
Definition Qtrunc (q : Q) : Z :=
  if Qle_bool 0 q then Qfloor q else Qceiling q.

Definition is_integer (q : Q) : bool := Qeq_bool q (inject_Z (Qfloor q)).

(** *** Rounding to a binary floating-point format

    [round_binary prec emax q] is the value of the binary format with
    [prec] bits of precision and largest exponent [emax] that is nearest
    to [q], ties to even; values too large round to an infinity. *)

Definition pow2 (e : Z) : Q :=
  if 0 <=? e then inject_Z (2 ^ e) else 1 # Z.to_pos (2 ^ (- e)).

(** floor (log2 (n / d)) for positive [n] and [d]. *)
Definition Qlog2 (n d : Z) : Z :=
  let e0 := Z.log2 n - Z.log2 d in
  let ge := if 0 <=? e0 then d * 2 ^ e0 <=? n else d <=? n * 2 ^ (- e0) in
  if ge then e0 else e0 - 1.

Definition round_half_even (num den : Z) : Z :=
  let m := num / den in
  let r := num mod den in
  if 2 * r <? den then m
  else if den <? 2 * r then m + 1
  else if Z.even m then m else m + 1.

Definition round_binary (prec emax : Z) (q : Q) : number :=
  let n := Z.abs (Qnum q) in
  let d := Z.pos (Qden q) in
  if n =? 0 then Fin 0 else
  let e := Z.max (Qlog2 n d) (1 - emax) in
  let t := e - (prec - 1) in
  let m := if 0 <=? t then round_half_even n (d * 2 ^ t)
           else round_half_even (n * 2 ^ (- t)) d in
  let a := Qred (inject_Z m * pow2 t) in
  if Qle_bool (pow2 (emax + 1)) a then (if Qnum q <? 0 then NegInf else PosInf)
  else Fin (if Qnum q <? 0 then Qopp a else a).

(** The double nearest to a rational. *)
Definition fl64 (q : Q) : number := round_binary 53 1023 q.

(** [Math.fround]: the single-precision value nearest to a Number. *)
Definition fround (x : number) : number :=
  match x with
  | Fin q => round_binary 24 127 q
  | _ => x
  end.

(** [2 ** n] for a non-negative integer [n] below 1024. *)
Definition num_pow2 (n : Z) : number := fl64 (inject_Z (2 ^ n)).

(** Unary minus. *)
Definition num_neg (x : number) : number :=
  match x with
  | NaN => NaN
  | NegInf => PosInf
  | PosInf => NegInf
  | Fin q => Fin (Qred (- q))
  end.

(** [x / 2] *)
Definition num_half (x : number) : number :=
  match x with
  | Fin q => fl64 (q / 2)
  | _ => x
  end.

(** [x - 1] *)
Definition num_pred (x : number) : number :=
  match x with
  | Fin q => fl64 (q - 1)
  | _ => x
  end.

(** ** The dtype registry *)

Inductive dtype : Type :=
| uint8 | int8 | uint16 | int16 | uint32 | int32 | uint64 | int64
| float32 | float64.

Global Instance dtype_eq_dec : EqDecision dtype.
Proof. solve_decision. Defined.

(** The keys of [DTYPE_TO_TYPEDARRAY_CONSTRUCTOR], in the order of the
    source. *)
Definition dtypes : list dtype :=
  [uint8; int8; uint16; int16; uint32; int32; uint64; int64; float32; float64].

Definition dtype_name (d : dtype) : string :=
  match d with
  | uint8 => "uint8" | int8 => "int8"
  | uint16 => "uint16" | int16 => "int16"
  | uint32 => "uint32" | int32 => "int32"
  | uint64 => "uint64" | int64 => "int64"
  | float32 => "float32" | float64 => "float64"
  end.

(** The dtype tag that a key of the tables denotes, if any. *)
Definition dtype_of_string (s : string) : option dtype :=
  find (fun d => String.eqb (dtype_name d) s) dtypes.

(** [dtype in DTYPE_TO_TYPEDARRAY_CONSTRUCTOR] *)
Definition isValidDtype (s : string) : bool :=
  match dtype_of_string s with Some _ => true | None => false end.

(** [XArray.BYTES_PER_ELEMENT] of the typed-array constructor of a dtype. *)
Definition BYTES_PER_ELEMENT (d : dtype) : Z :=
  match d with
  | uint8 | int8 => 1
  | uint16 | int16 => 2
  | uint32 | int32 | float32 => 4
  | uint64 | int64 | float64 => 8
  end.

Definition DTYPE_TO_NB_POSIBLE_VALUES (d : dtype) : number :=
  match d with
  | float32 | float64 => PosInf
  | _ => num_pow2 (BYTES_PER_ELEMENT d * 8)
  end.

Record bound : Type := { b_min : number; b_max : number }.

(** The table of the source, entry by entry. *)
Definition DTYPE_TO_BOUND (d : dtype) : bound :=
  match d with
  | uint8 =>
      {| b_min := of_Z 0;
         b_max := num_pred (DTYPE_TO_NB_POSIBLE_VALUES uint8) |}
  | int8 =>
      {| b_min := num_half (num_neg (DTYPE_TO_NB_POSIBLE_VALUES int8));
         b_max := num_pred (num_half (DTYPE_TO_NB_POSIBLE_VALUES int8)) |}
  | uint16 =>
      {| b_min := num_half (num_neg (DTYPE_TO_NB_POSIBLE_VALUES uint16));
         b_max := num_pred (num_half (DTYPE_TO_NB_POSIBLE_VALUES uint16)) |}
  | int16 =>
      {| b_min := num_half (num_neg (DTYPE_TO_NB_POSIBLE_VALUES int16));
         b_max := num_pred (num_half (DTYPE_TO_NB_POSIBLE_VALUES int16)) |}
  | uint32 =>
      {| b_min := num_half (num_neg (DTYPE_TO_NB_POSIBLE_VALUES uint32));
         b_max := num_pred (num_half (DTYPE_TO_NB_POSIBLE_VALUES uint32)) |}
  | int32 =>
      {| b_min := num_half (num_neg (DTYPE_TO_NB_POSIBLE_VALUES int32));
         b_max := num_pred (num_half (DTYPE_TO_NB_POSIBLE_VALUES int32)) |}
  | uint64 =>
      {| b_min := num_half (num_neg (DTYPE_TO_NB_POSIBLE_VALUES uint64));
         b_max := num_pred (num_half (DTYPE_TO_NB_POSIBLE_VALUES uint64)) |}
  | int64 =>
      {| b_min := num_half (num_neg (DTYPE_TO_NB_POSIBLE_VALUES int64));
         b_max := num_pred (num_half (DTYPE_TO_NB_POSIBLE_VALUES int64)) |}
  | float32 => {| b_min := NegInf; b_max := PosInf |}
  | float64 => {| b_min := NegInf; b_max := PosInf |}
  end.

(** The number of value bits of a fixed-width integer kind, and whether the
    kind is signed; [None] for the float kinds. *)
Definition int_kind (d : dtype) : option (bool * Z) :=
  match d with
  | uint8 => Some (false, 8) | int8 => Some (true, 8)
  | uint16 => Some (false, 16) | int16 => Some (true, 16)
  | uint32 => Some (false, 32) | int32 => Some (true, 32)
  | uint64 => Some (false, 64) | int64 => Some (true, 64)
  | float32 | float64 => None
  end.

(** The inclusive range of values that the storage kind can represent. *)
Definition representable_range (d : dtype) : number * number :=
  match int_kind d with
  | Some (false, w) => (of_Z 0, of_Z (2 ^ w - 1))
  | Some (true, w) => (of_Z (- 2 ^ (w - 1)), of_Z (2 ^ (w - 1) - 1))
  | None => (NegInf, PosInf)
  end.

(** ** Values, errors *)

#[warnings="-register-all"] Inductive value : Type :=
| VUndef
| VNum (x : number)
| VBig (z : Z)
| VArr (l : list value).

(** One constructor per [throw] of the source, named after what the message
    reports, and the three exceptions that the runtime itself raises. *)
Inductive error : Type :=
| ErrNoShapeNoData      (* At least a shape of a data array is expected ... *)
| ErrInvalidDtype       (* The value ... is not a valid dtype. *)
| ErrInvalidData        (* The provided data array is not valid. *)
| ErrShapeMismatch      (* The shape does not match the size of the data. ... *)
| ErrValueNotNumber     (* The value must be a number *)
| ErrPositionArity      (* The position argument contains ... elements instead of ... *)
| ErrPositionOutOfBound (i : nat) (* The position components i is out of bound. ... *)
| ErrCopyDtype          (* The provided dtype is not valid *)
| ErrSliceDtype         (* The provided dtype does not exist. *)
| ErrBoundariesArity    (* The boundaries must contain ... elements. *)
| ErrStrictBounds (i : nat) (* The largest boundaries possible for the ith dimension are ... *)
| ErrNotArray           (* The value provided is not an Array *)
| ErrEmptyArray         (* An empty array cannot be used as data. *)
| ErrSizeInconsistency  (* The provided nested Array has size inconsistencies. *)
| TypeError
| RangeError
| SyntaxError.

Inductive result (A : Type) : Type :=
| Ok (a : A)
| Err (e : error).
Arguments Ok {A} a.
Arguments Err {A} e.

Definition bind {A B} (r : result A) (k : A -> result B) : result B :=
  match r with
  | Ok a => k a
  | Err e => Err e
  end.

Notation "'do' x <- c1 ; c2" := (bind c1 (fun x => c2))
  (at level 10, x pattern, c1 at level 100, c2 at level 200).

Definition is_ok {A} (r : result A) : bool :=
  match r with Ok _ => true | Err _ => false end.

(** *** Conversions of the language *)

(** The Number that the text of an array element denotes, where the text is
    the one [Array.prototype.join] gives the element: empty for [undefined]
    and for an empty array, the text of the only element for a one-element
    array, and a text with a comma (not a numeral) otherwise. *)
Fixpoint string_number (v : value) : number :=
  match v with
  | VUndef => of_Z 0
  | VNum x => x
  | VBig z => fl64 (inject_Z z)
  | VArr [] => of_Z 0
  | VArr [x] => string_number x
  | VArr _ => NaN
  end.

(** The BigInt that the same text denotes, if it is an integer numeral
    (Numbers from 1e21 on print with an exponent). *)
Fixpoint string_bigint (v : value) : option Z :=
  match v with
  | VUndef => Some 0
  | VNum (Fin q) =>
      if is_integer q && Qlt_bool (Qabs q) (inject_Z (10 ^ 21))
      then Some (Qfloor q) else None
  | VNum _ => None
  | VBig z => Some z
  | VArr [] => Some 0
  | VArr [x] => string_bigint x
  | VArr _ => None
  end.

(** [ToNumber] *)
Definition ToNumber (v : value) : result number :=
  match v with
  | VUndef => Ok NaN
  | VNum x => Ok x
  | VBig _ => Err TypeError
  | VArr _ => Ok (string_number v)
  end.

(** [ToBigInt] *)
Definition ToBigInt (v : value) : result Z :=
  match v with
  | VUndef | VNum _ => Err TypeError
  | VBig z => Ok z
  | VArr _ => match string_bigint v with Some z => Ok z | None => Err SyntaxError end
  end.

(** The numeric value with which a value takes part in [<] and [>] against
    a Number: a BigInt is compared by its mathematical value. *)
Definition comparand (v : value) : number :=
  match v with
  | VUndef => NaN
  | VNum x => x
  | VBig z => of_Z z
  | VArr _ => string_number v
  end.

Definition val_lt (v : value) (b : number) : bool := num_lt (comparand v) b.
Definition val_gt (v : value) (b : number) : bool := num_gt (comparand v) b.

(** [isNaN(v)] *)
Definition isNaN (v : value) : result bool :=
  do x <- ToNumber v ;
  Ok (match x with NaN => true | _ => false end).

(** ** Typed arrays and the heap *)

(** Reduction of an integer to the [w]-bit two's complement or unsigned
    range. *)
Definition wrap (signed : bool) (w : Z) (z : Z) : Z :=
  if signed then (z + 2 ^ (w - 1)) mod 2 ^ w - 2 ^ (w - 1) else z mod 2 ^ w.

(** [ToIntegerOrInfinity] followed by the modular reduction: NaN and the
    infinities become 0, a finite Number is truncated toward zero. *)
Definition to_int (signed : bool) (w : Z) (x : number) : Z :=
  match x with
  | Fin q => wrap signed w (Qtrunc q)
  | _ => 0
  end.

(** The element that a typed array of kind [d] holds after [a[i] = v]. *)
Definition ta_convert (d : dtype) (v : value) : result value :=
  match d with
  | uint64 => do z <- ToBigInt v ; Ok (VBig (wrap false 64 z))
  | int64 => do z <- ToBigInt v ; Ok (VBig (wrap true 64 z))
  | float64 => do x <- ToNumber v ; Ok (VNum x)
  | float32 => do x <- ToNumber v ; Ok (VNum (fround x))
  | uint8 => do x <- ToNumber v ; Ok (VNum (of_Z (to_int false 8 x)))
  | int8 => do x <- ToNumber v ; Ok (VNum (of_Z (to_int true 8 x)))
  | uint16 => do x <- ToNumber v ; Ok (VNum (of_Z (to_int false 16 x)))
  | int16 => do x <- ToNumber v ; Ok (VNum (of_Z (to_int true 16 x)))
  | uint32 => do x <- ToNumber v ; Ok (VNum (of_Z (to_int false 32 x)))
  | int32 => do x <- ToNumber v ; Ok (VNum (of_Z (to_int true 32 x)))
  end.

Record typedarray : Type := { ta_dtype : dtype; ta_elems : list value }.

Definition ta_length (a : typedarray) : Z := Z.of_nat (length (ta_elems a)).

Definition ta_zero (d : dtype) : value :=
  match d with
  | uint64 | int64 => VBig 0
  | _ => VNum (of_Z 0)
  end.

(** [new XArray(n)]: [n] zero elements, a RangeError for a negative [n]. *)
Definition ta_new (d : dtype) (n : Z) : result typedarray :=
  if n <? 0 then Err RangeError
  else Ok {| ta_dtype := d; ta_elems := replicate (Z.to_nat n) (ta_zero d) |}.

(** [a[i]]: undefined outside the array. *)
Definition ta_get (a : typedarray) (i : Z) : value :=
  if i <? 0 then VUndef
  else default VUndef (ta_elems a !! Z.to_nat i).

(** [a[i] = v]: the value is converted first (which may throw); a write
    outside the array is then dropped. *)
Definition ta_set (a : typedarray) (i : Z) (v : value) : result typedarray :=
  do e <- ta_convert (ta_dtype a) v ;
  if (i <? 0) || (ta_length a <=? i) then Ok a
  else Ok {| ta_dtype := ta_dtype a; ta_elems := <[Z.to_nat i := e]> (ta_elems a) |}.

(** [a.slice()]: a new typed array of the same kind and content. *)
Definition ta_slice (a : typedarray) : typedarray :=
  {| ta_dtype := ta_dtype a; ta_elems := ta_elems a |}.

(** Locations are indices into the heap, which only grows. *)
Abbreviation loc := nat (only parsing).
Abbreviation heap := (list typedarray) (only parsing).

Definition alloc (h : heap) (a : typedarray) : loc * heap :=
  (length h, h ++ [a]).

(** The typed array at a location.  Every location handed out by [alloc] is
    in the heap; the default only makes the function total. *)
Definition deref (h : heap) (l : loc) : typedarray :=
  default {| ta_dtype := float64; ta_elems := [] |} (h !! l).

(** ** NdRaster *)

Record NdRaster : Type := {
  _data : loc;
  _dtype : option dtype;
  _shape : list Z;
  _strides : list Z;
  _typeBound : option bound;
}.

(** What the caller passes as [options.data]: a typed array (by reference)
    or a generic, possibly nested, Array. *)
Inductive data_in : Type :=
| TypedData (l : loc)
| GenericData (l : list value).

Record options : Type := {
  o_dtype : option string;
  o_copy : bool;
  o_shape : option (list Z);
  o_data : option data_in;
}.

(** [shape.reduce((a, b) => a * b)]: no initial value, so a TypeError on an
    empty array. *)
Definition reduce_mul (shape : list Z) : result Z :=
  match shape with
  | [] => Err TypeError
  | s :: rest => Ok (fold_left Z.mul rest s)
  end.

(** *** Static helpers *)

Definition guessDtype (h : heap) (arr : option data_in) : option dtype :=
  match arr with
  | Some (TypedData l) =>
      match h !! l with
      | Some a => find (fun d => bool_decide (ta_dtype a = d)) dtypes
      | None => None
      end
  | _ => None
  end.

Definition isGenericArray (arr : option data_in) : bool :=
  match arr with
  | Some (GenericData _) => true
  | _ => false
  end.

(** The loop of [getNestedArrayShape]: follow the first element while it is
    an Array. *)
Fixpoint getNestedArrayShape_dig (arrDigger : value) (shape : list Z)
  : result (list Z) :=
  match arrDigger with
  | VArr l =>
      match l with
      | [] => Err ErrEmptyArray
      | first :: _ =>
          getNestedArrayShape_dig first (shape ++ [Z.of_nat (length l)])
      end
  | _ => Ok shape
  end.

Definition getNestedArrayShape (arr : value) : result (list Z) :=
  match arr with
  | VArr _ => getNestedArrayShape_dig arr []
  | _ => Err ErrNotArray
  end.

(** [Array.prototype.flat(depth)] *)
Fixpoint flat (depth : nat) (l : list value) : list value :=
  match depth with
  | O => l
  | S d =>
      flat_map (fun e => match e with VArr l' => flat d l' | _ => [e] end) l
  end.

Definition flattenNestedArray (arr : list value)
  : result (list value * list Z) :=
  do shape <- getNestedArrayShape (VArr arr) ;
  let array := flat (length shape) arr in
  do expectedLength <- reduce_mul shape ;
  if negb (expectedLength =? Z.of_nat (length array))
  then Err ErrSizeInconsistency
  else Ok (array, shape).

(** The conversion loop of [copyDataAsType]. *)
Fixpoint copyDataAsType_loop (bounds : bound) (arr : list value) (i : Z)
    (arrCopy : typedarray) : result typedarray :=
  match arr with
  | [] => Ok arrCopy
  | x :: rest =>
      let boundedValue :=
        if val_lt x (b_min bounds) then VNum (b_min bounds)
        else if val_gt x (b_max bounds) then VNum (b_max bounds)
        else x in
      do arrCopy' <- ta_set arrCopy i boundedValue ;
      copyDataAsType_loop bounds rest (i + 1) arrCopy'
  end.

(** The elements of the data passed to [copyDataAsType]. *)
Definition elements (h : heap) (arr : data_in) : list value :=
  match arr with
  | TypedData l => ta_elems (deref h l)
  | GenericData l => l
  end.

(** [copyDataAsType(arr, targetDtype)]; the target is a dtype tag, so the
    validity test of the source always passes.  The result is a newly
    allocated typed array. *)
Definition copyDataAsType (h : heap) (arr : data_in) (targetDtype : dtype)
  : result (loc * heap) :=
  let convert :=
    let bounds := DTYPE_TO_BOUND targetDtype in
    let src := elements h arr in
    do arrCopy <- ta_new targetDtype (Z.of_nat (length src)) ;
    do arrCopy' <- copyDataAsType_loop bounds src 0 arrCopy ;
    Ok (alloc h arrCopy') in
  match arr, guessDtype h (Some arr) with
  | TypedData l, Some guessedDtype =>
      if bool_decide (guessedDtype = targetDtype)
      then Ok (alloc h (ta_slice (deref h l)))
      else convert
  | _, _ => convert
  end.

(** *** The shape setter *)

Definition shape_total (shape : list Z) : Z := fold_left Z.mul shape 1.

(** The strides as the setter fills them: an array of zeros, a 1 at the last
    index (index -1 of an empty array is not an element), then from the
    last-but-one index down to 0. *)
Definition compute_strides (shape : list Z) : list Z :=
  let n := length shape in
  let strides := replicate n 0 in
  let strides := match n with O => strides | S k => <[k := 1]> strides end in
  fold_left
    (fun st i =>
       <[i := default 0 (shape !! (i + 1)%nat) * default 0 (st !! (i + 1)%nat)]> st)
    (rev (seq 0 (n - 1)))
    strides.

(** [this.shape = shape] *)
Definition set_shape (r : NdRaster) (h : heap) (shape : list Z)
  : result NdRaster :=
  let total := shape_total shape in
  if negb (total =? ta_length (deref h (_data r))) then Err ErrShapeMismatch
  else Ok {| _data := _data r;
             _dtype := _dtype r;
             _shape := shape;
             _strides := compute_strides shape;
             _typeBound := _typeBound r |}.

(** *** The constructor *)

(** A provided dtype is used when it is truthy, that is a non-empty
    string. *)
Definition truthy_dtype (providedDtype : option string) : option string :=
  match providedDtype with
  | Some s => if String.eqb s "" then None else Some s
  | None => None
  end.

(** The last two statements of the constructor. *)
Definition finish (data : loc) (dtype : option dtype) (shape : option (list Z))
    (h : heap) : result (NdRaster * heap) :=
  let this := {| _data := data; _dtype := dtype; _shape := [];
                 _strides := []; _typeBound := None |} in
  do this <- set_shape this h
               (match shape with
                | Some s => s
                | None => [ta_length (deref h data)]
                end) ;
  Ok ({| _data := _data this;
         _dtype := _dtype this;
         _shape := _shape this;
         _strides := _strides this;
         _typeBound := option_map DTYPE_TO_BOUND (_dtype this) |}, h).

(** The resolution of the backing buffer: the chain of [if] ... [else if]
    of the constructor, followed by its last two statements.  [provided] is
    the dtype of the options once it has been checked. *)
Definition resolve (provided : option dtype) (copy : bool)
    (shape : option (list Z)) (arr : option data_in) (h : heap)
  : result (NdRaster * heap) :=
  let guessedDtype := guessDtype h arr in
  let dtypeToUse := default float64 provided in
  match arr with
  | None =>
      (* !arr && shape *)
      do expectedLength <- reduce_mul (default [] shape) ;
      do a <- ta_new dtypeToUse expectedLength ;
      let '(l, h') := alloc h a in
      finish l None shape h'
  | Some arr' =>
      if isGenericArray arr
         || (negb (bool_decide (guessedDtype = Some dtypeToUse))
             && bool_decide (provided <> None))
         || copy
      then
        match arr' with
        | GenericData g =>
            do (array, nestedShape) <- flattenNestedArray g ;
            let shape := match shape with
                         | None => Some nestedShape
                         | Some _ => shape
                         end in
            do (l, h') <- copyDataAsType h (GenericData array) dtypeToUse ;
            finish l (Some dtypeToUse) shape h'
        | TypedData _ =>
            do (l, h') <- copyDataAsType h arr' dtypeToUse ;
            finish l (Some dtypeToUse) shape h'
        end
      else
        match guessedDtype, arr' with
        | Some g, TypedData l =>
            if copy then
              do (l', h') <- copyDataAsType h arr' g ;
              finish l' (Some dtypeToUse) shape h'
            else finish l (Some g) shape h
        | _, _ => Err ErrInvalidData
        end
  end.

Definition construct (o : options) (h : heap) : result (NdRaster * heap) :=
  let providedDtype := truthy_dtype (o_dtype o) in
  let copy := o_copy o in
  let shape := o_shape o in
  let arr := o_data o in
  match shape, arr with
  | None, None => Err ErrNoShapeNoData
  | _, _ =>
    match providedDtype, from_option dtype_of_string None providedDtype with
    | Some _, None => Err ErrInvalidDtype
    | _, provided => resolve provided copy shape arr h
    end
  end.

(** *** Addressing *)

(** The loop of [_throwIfInvalidPosition], from index [i] on. *)
Fixpoint check_components (i : nat) (position shape : list Z) : result unit :=
  match position, shape with
  | p :: position', s :: shape' =>
      if (p <? 0) || (s - 1 <? p) then Err (ErrPositionOutOfBound i)
      else check_components (S i) position' shape'
  | _, _ => Ok tt
  end.

Definition _throwIfInvalidPosition (r : NdRaster) (position : list Z)
  : result unit :=
  if negb (length position =? length (_shape r))%nat then Err ErrPositionArity
  else check_components 0 position (_shape r).

(** [dataOffset += position[i] * this._strides[i]] for every index of the
    position (which has as many components as there are strides once the
    position has been validated). *)
Fixpoint dataOffset_from (dataOffset : Z) (position strides : list Z) : Z :=
  match position, strides with
  | p :: position', s :: strides' =>
      dataOffset_from (dataOffset + p * s) position' strides'
  | _, _ => dataOffset
  end.

Definition dataOffset (r : NdRaster) (position : list Z) : Z :=
  dataOffset_from 0 position (_strides r).

Definition get (r : NdRaster) (h : heap) (position : list Z) : result value :=
  do _ <- _throwIfInvalidPosition r position ;
  Ok (ta_get (deref h (_data r)) (dataOffset r position)).

(** [set(position, value)]; reading [this._typeBound.min] is a TypeError
    when the raster has no bound record. *)
Definition set (r : NdRaster) (h : heap) (position : list Z) (v : value)
  : result heap :=
  do nan <- isNaN v ;
  if nan : bool then Err ErrValueNotNumber else
  do _ <- _throwIfInvalidPosition r position ;
  match _typeBound r with
  | None => Err TypeError
  | Some typeBound =>
      let boundedValue := v in
      let boundedValue :=
        if val_lt v (b_min typeBound) then VNum (b_min typeBound)
        else boundedValue in
      let boundedValue :=
        if val_gt v (b_max typeBound) then VNum (b_max typeBound)
        else boundedValue in
      do a <- ta_set (deref h (_data r)) (dataOffset r position) boundedValue ;
      Ok (<[_data r := a]> h)
  end.

(** The [bounds] getter. *)
Definition bounds (r : NdRaster) : result bound :=
  match _typeBound r with
  | None => Err TypeError
  | Some typeBound =>
      Ok {| b_min := b_min typeBound; b_max := b_max typeBound |}
  end.

Definition dimensions (r : NdRaster) : Z := Z.of_nat (length (_shape r)).

(** *** Copy *)

(** [copy(options)], where [dtype] is [options.dtype] if the option is
    present. *)
Definition copy (r : NdRaster) (h : heap) (dtype : option string)
  : result (NdRaster * heap) :=
  let dtype := match dtype with
               | Some s => dtype_of_string s
               | None => _dtype r
               end in
  match dtype with
  | None => Err ErrCopyDtype
  | Some dtype =>
      do (dataCopy, h') <-
        (if bool_decide (Some dtype = _dtype r)
         then Ok (alloc h (ta_slice (deref h (_data r))))
         else copyDataAsType h (TypedData (_data r)) dtype) ;
      construct {| o_dtype := None; o_copy := false;
                   o_shape := Some (_shape r);
                   o_data := Some (TypedData dataCopy) |} h'
  end.

Definition asType (r : NdRaster) (h : heap) (dtype : string)
  : result (NdRaster * heap) :=
  copy r h (Some dtype).

(** *** The position iterator *)

Definition lt_opt (a : Z) (b : option Z) : bool :=
  match b with Some b => a <? b | None => false end.

Definition ge_opt (a : Z) (b : option Z) : bool :=
  match b with Some b => b <=? a | None => false end.

(** The loop of [getNextPosition] with [k] indices left to visit: the next
    index visited is [k - 1].  ([min] and [max] have a component for every
    index of the position wherever the source calls the function.) *)
Fixpoint getNextPosition_loop (k : nat) (position min max nextPos : list Z)
  : option (list Z) :=
  match k with
  | O => None
  | S i =>
      let p := default 0 (position !! i) in
      if lt_opt p (min !! i) || ge_opt p (max !! i) then None
      else
        let dimIncreased := p + 1 in
        if ge_opt dimIncreased (max !! i) then
          if (i =? 0)%nat then None
          else getNextPosition_loop i position min max
                 (<[i := default 0 (min !! i)]> nextPos)
        else Some (<[i := dimIncreased]> nextPos)
  end.

Definition getNextPosition (position min max : list Z) : option (list Z) :=
  getNextPosition_loop (length position) position min max position.

(** *** Slice *)

Record slice_options : Type := {
  s_min : option (list Z);
  s_max : option (list Z);
  s_dtype : option string;
  s_strict : bool;
}.

(** [DTYPE_TO_BOUND.min] and [DTYPE_TO_BOUND.max] as [slice] reads them:
    properties of the table itself, not of one of its entries.  The keys of
    the table are the dtype tags, so both reads give [undefined]. *)
Definition DTYPE_TO_BOUND_min : value := VUndef.
Definition DTYPE_TO_BOUND_max : value := VUndef.

(** [this._shape] as an operand of [>]: the Array is converted through its
    text. *)
Definition shape_comparand (shape : list Z) : number :=
  comparand (VArr (map (fun s => VNum (of_Z s)) shape)).

(** The loop of the strict-mode validation, from index [i] on; [whole] is
    [this._shape]. *)
Fixpoint strict_check (i : nat) (min max shape whole : list Z) : result unit :=
  match min, max, shape with
  | mn :: min', mx :: max', s :: shape' =>
      if (mn <? 0) || (s - 1 <? mn) || (mx <? 1)
         || num_gt (of_Z mx) (shape_comparand whole)
      then Err (ErrStrictBounds i)
      else strict_check (S i) min' max' shape' whole
  | _, _, _ => Ok tt
  end.

(** The [while (incrementPos)] loop; [None] when the fuel runs out. *)
Fixpoint slice_loop (fuel : nat) (r : NdRaster) (h : heap) (min max : list Z)
    (incrementPos : list Z) (increment1D : Z) (buffer : typedarray)
  : option (result typedarray) :=
  match fuel with
  | O => None
  | S fuel' =>
      match get r h incrementPos with
      | Err e => Some (Err e)
      | Ok value =>
          let value :=
            if val_lt value (comparand DTYPE_TO_BOUND_min) then DTYPE_TO_BOUND_min
            else if val_gt value (comparand DTYPE_TO_BOUND_max) then DTYPE_TO_BOUND_max
            else value in
          match ta_set buffer increment1D value with
          | Err e => Some (Err e)
          | Ok buffer' =>
              match getNextPosition incrementPos min max with
              | None => Some (Ok buffer')
              | Some next =>
                  slice_loop fuel' r h min max next (increment1D + 1) buffer'
              end
          end
      end
  end.

Definition slice (fuel : nat) (r : NdRaster) (h : heap) (o : slice_options)
  : option (result (NdRaster * heap)) :=
  let min := default (map (fun _ => 0) (_shape r)) (s_min o) in
  let max := default (_shape r) (s_max o) in
  let dtype := match s_dtype o with
               | Some s => dtype_of_string s
               | None => _dtype r
               end in
  let strict := s_strict o in
  match dtype with
  | None => Some (Err ErrSliceDtype)
  | Some dtype =>
    match s_min o, s_max o with
    | None, None => Some (copy r h (s_dtype o))
    | _, _ =>
      if negb (length min =? length (_shape r))%nat
         || negb (length max =? length (_shape r))%nat
      then Some (Err ErrBoundariesArity)
      else
        let checked :=
          if strict then
            do _ <- strict_check 0 min max (_shape r) (_shape r) ;
            Ok (min, max)
          else
            Ok (map (fun el => Z.max el 0) min,
                zip_with (fun el s => Z.min el s) max (_shape r)) in
        match checked with
        | Err e => Some (Err e)
        | Ok (min, max) =>
          let sliceShape := zip_with (fun el mn => el - mn) max min in
          match (do expectedLength <- reduce_mul sliceShape ;
                 ta_new dtype expectedLength) with
          | Err e => Some (Err e)
          | Ok buffer =>
            match slice_loop fuel r h min max min 0 buffer with
            | None => None
            | Some (Err e) => Some (Err e)
            | Some (Ok buffer') =>
                let '(l, h') := alloc h buffer' in
                Some (construct {| o_dtype := None; o_copy := false;
                                   o_shape := Some sliceShape;
                                   o_data := Some (TypedData l) |} h')
            end
          end
        end
    end
  end.

(** * Notions used to state the properties *)

(** The product of the shape entries from index [j] on. *)
Definition tail_total (shape : list Z) (j : nat) : Z := shape_total (drop j shape).

(** One iteration of the stride loop of the shape setter, at index [i]. *)
Definition stride_step (shape : list Z) (st : list Z) (i : nat) : list Z :=
  <[i := default 0 (shape !! (i + 1)%nat) * default 0 (st !! (i + 1)%nat)]> st.

(** The strides once that loop has run from the last-but-one index down to
    index [n - 1 - k]: the [k + 1] last strides are final. *)
Definition strides_upto (shape : list Z) (k : nat) : list Z :=
  let n := length shape in
  fold_right (fun i st => stride_step shape st i)
    (match n with O => replicate n 0 | S m => <[m := 1]> (replicate n 0) end)
    (seq (n - 1 - k) k).

(** Saturation as the specification words it: a value below [min] becomes
    [min], a value above [max] becomes [max]. *)
Definition saturate (v : number) (b : bound) : number :=
  if num_lt v (b_min b) then b_min b
  else if num_gt v (b_max b) then b_max b
  else v.

(** The value that [set] writes (its [boundedValue]). *)
Definition set_bounded (typeBound : bound) (v : value) : value :=
  let boundedValue := v in
  let boundedValue :=
    if val_lt v (b_min typeBound) then VNum (b_min typeBound)
    else boundedValue in
  if val_gt v (b_max typeBound) then VNum (b_max typeBound)
  else boundedValue.

(** A valid position: as many components as dimensions, each within
    [0, shape[i] - 1]. *)
Definition valid_position (r : NdRaster) (position : list Z) : Prop :=
  Forall2 (fun p s => 0 <= p <= s - 1) position (_shape r).

(** [r] is a raster of dtype [d] over the heap [h]: its data is a typed
    array of kind [d] in [h] with as many elements as the shape announces,
    and dtype, strides and bound record are the ones the constructor
    derives. *)
Record raster_of (d : dtype) (r : NdRaster) (h : heap) : Prop := {
  ro_data : exists a, h !! _data r = Some a /\ ta_dtype a = d
                      /\ shape_total (_shape r) = ta_length a;
  ro_dtype : _dtype r = Some d;
  ro_strides : _strides r = compute_strides (_shape r);
  ro_bound : _typeBound r = Some (DTYPE_TO_BOUND d);
}.

(** The stride invariant of the data model, index by index, together with
    the element count. *)
Definition stride_invariant (r : NdRaster) (h : heap) : Prop :=
  length (_strides r) = length (_shape r)
  /\ (forall i, (i + 1 = length (_shape r))%nat -> _strides r !! i = Some 1)
  /\ (forall i, (i + 1 < length (_shape r))%nat ->
        exists s st, _shape r !! (i + 1)%nat = Some s
                     /\ _strides r !! (i + 1)%nat = Some st
                     /\ _strides r !! i = Some (s * st))
  /\ shape_total (_shape r) = ta_length (deref h (_data r)).

(** The values that a typed array of kind [d] holds without converting
    them, for the kinds whose registry entry is the representable range:
    integers and the infinities (which saturate) for uint8, int8, int16 and
    int32, every Number but NaN for float64, the single-precision Numbers
    for float32. *)
Definition stored_exactly (d : dtype) (v : number) : Prop :=
  match d with
  | uint8 | int8 | int16 | int32 =>
      match v with
      | Fin q => is_integer q = true
      | NaN => False
      | _ => True
      end
  | float64 => v <> NaN
  | float32 => v <> NaN /\ num_eqb (fround v) v = true
  | _ => False
  end.

(** The dtype that the options provide, once validated. *)
Definition provided_dtype (o : options) : option dtype :=
  from_option dtype_of_string None (truthy_dtype (o_dtype o)).

(** Where the data of a raster comes from: a newly allocated array, or the
    caller's own typed array. *)
Inductive origin (o : options) (h : heap) (l : loc) (d : option dtype)
    (h' : heap) : Prop :=
| Fresh (a : typedarray) :
    h' = h ++ [a] -> l = length h ->
    (o_data o = None /\ d = None \/ o_data o <> None /\ d = Some (ta_dtype a)) ->
    origin o h l d h'
| Alias (a : typedarray) :
    h' = h -> o_data o = Some (TypedData l) -> h !! l = Some a ->
    d = Some (ta_dtype a) -> o_copy o = false ->
    origin o h l d h'.

(** ** Sample data *)

Definition nums (l : list Z) : list value := map (fun z => VNum (of_Z z)) l.

(** [new Uint8Array(4)] *)
Definition zeros_u8 : typedarray :=
  {| ta_dtype := uint8; ta_elems := nums [0; 0; 0; 0] |}.

Definition options_u8 : options :=
  {| o_dtype := Some "uint8"%string; o_copy := false; o_shape := None;
     o_data := Some (TypedData 0%nat) |}.

(** [new NdRaster({ data: new Uint8Array(4), dtype: 'uint8' })] *)
Definition raster_u8 : NdRaster :=
  {| _data := 0%nat; _dtype := Some uint8; _shape := [4]; _strides := [1];
     _typeBound := Some (DTYPE_TO_BOUND uint8) |}.

(** [options_u8] with [copy: true]. *)
Definition options_u8_copy : options :=
  {| o_dtype := Some "uint8"%string; o_copy := true; o_shape := None;
     o_data := Some (TypedData 0%nat) |}.

(** The raster that [options_u8_copy] gives over [zeros_u8]: its data is
    the second array of the heap. *)
Definition raster_u8_copy : NdRaster :=
  {| _data := 1%nat; _dtype := Some uint8; _shape := [4]; _strides := [1];
     _typeBound := Some (DTYPE_TO_BOUND uint8) |}.

(** The options of [new NdRaster({ data: new Uint8Array(4) })]: no dtype,
    [copy] left to its default. *)
Definition options_u8_data_only : options :=
  {| o_dtype := None; o_copy := false; o_shape := None;
     o_data := Some (TypedData 0%nat) |}.

(** [new Uint16Array(2)] and the raster over it. *)
Definition zeros_u16 : typedarray :=
  {| ta_dtype := uint16; ta_elems := nums [0; 0] |}.

Definition raster_u16 : NdRaster :=
  {| _data := 0%nat; _dtype := Some uint16; _shape := [2]; _strides := [1];
     _typeBound := Some (DTYPE_TO_BOUND uint16) |}.

(** [Float64Array.from([300, -5])] and the raster over it. *)
Definition wide_f64 : typedarray :=
  {| ta_dtype := float64; ta_elems := nums [300; -5] |}.

Definition raster_wide : NdRaster :=
  {| _data := 0%nat; _dtype := Some float64; _shape := [2]; _strides := [1];
     _typeBound := Some (DTYPE_TO_BOUND float64) |}.

(** The 4 x 4 float64 raster filled with 0 .. 15 in row-major order. *)
Definition grid_f64 : typedarray :=
  {| ta_dtype := float64;
     ta_elems := nums [0; 1; 2; 3; 4; 5; 6; 7; 8; 9; 10; 11; 12; 13; 14; 15] |}.

Definition raster_grid : NdRaster :=
  {| _data := 0%nat; _dtype := Some float64; _shape := [4; 4];
     _strides := [4; 1]; _typeBound := Some (DTYPE_TO_BOUND float64) |}.

(** [[[1, 2], [3], [4, 5, 6]]]: rows of different lengths. *)
Definition ragged : list value :=
  [VArr (nums [1; 2]); VArr (nums [3]); VArr (nums [4; 5; 6])].

(** [[[1, 2], [], [3, 4, 5, 6]]]: an empty row. *)
Definition ragged_empty : list value :=
  [VArr (nums [1; 2]); VArr []; VArr (nums [3; 4; 5; 6])].

(** Index [i] is the first one at which the position leaves the shape. *)
Definition first_out_of_bound (position shape : list Z) (i : nat) : Prop :=
  (exists p s, position !! i = Some p /\ shape !! i = Some s
               /\ (p < 0 \/ s - 1 < p))
  /\ (forall j p s, (j < i)%nat -> position !! j = Some p -> shape !! j = Some s ->
        0 <= p <= s - 1).

(** The dtype option is absent, empty, or a key of the registry. *)
Definition dtype_option_ok (o : options) : Prop :=
  match truthy_dtype (o_dtype o) with
  | Some s => isValidDtype s = true
  | None => True
  end.

(** [new NdRaster({ shape: [2, 3] })] *)
Definition options_shape_only : options :=
  {| o_dtype := None; o_copy := false; o_shape := Some [2; 3]; o_data := None |}.

Definition raster_shape_only : NdRaster :=
  {| _data := 0%nat; _dtype := None; _shape := [2; 3]; _strides := [3; 1];
     _typeBound := None |}.

(** [new BigInt64Array(2)] and the raster over it. *)
Definition zeros_i64 : typedarray :=
  {| ta_dtype := int64; ta_elems := [VBig 0; VBig 0] |}.

Definition raster_i64 : NdRaster :=
  {| _data := 0%nat; _dtype := Some int64; _shape := [2]; _strides := [1];
     _typeBound := Some (DTYPE_TO_BOUND int64) |}.

(** The value that [copyDataAsType] writes for a source element (its
    [boundedValue]). *)
Definition copy_bounded (bounds : bound) (x : value) : value :=
  if val_lt x (b_min bounds) then VNum (b_min bounds)
  else if val_gt x (b_max bounds) then VNum (b_max bounds)
  else x.

(** A position inside the box from [min] (inclusive) to [max] (exclusive). *)
Definition in_box (position min max : list Z) : Prop :=
  Forall3 (fun p mn mx => mn <= p < mx) position min max.

(** The extents of the box: the [sliceShape] of [slice]. *)
Definition box_shape (min max : list Z) : list Z :=
  zip_with (fun el mn => el - mn) max min.

(** The row-major rank of a position within the box. *)
Definition box_offset (position min max : list Z) : Z :=
  dataOffset_from 0 (zip_with Z.sub position min)
    (compute_strides (box_shape min max)).

(** The row-major successor within the box, slowest dimension first. *)
Fixpoint next_in_box (position min max : list Z) : option (list Z) :=
  match position, min, max with
  | p :: position', mn :: min', mx :: max' =>
      match next_in_box position' min' max' with
      | Some q => Some (p :: q)
      | None => if p + 1 <? mx then Some (p + 1 :: min') else None
      end
  | _, _, _ => None
  end.

(** The box from [min] to [max] is not empty and lies inside the shape. *)
Definition box_inside (min max shape : list Z) : Prop :=
  Forall3 (fun mn mx s => 0 <= mn < mx /\ mx <= s) min max shape.

(** Every element read in the box can be stored in an array of kind [t]. *)
Definition convertible (r : NdRaster) (h : heap) (min max : list Z)
    (t : dtype) : Prop :=
  forall q v, in_box q min max -> get r h q = Ok v ->
              exists e, ta_convert t v = Ok e.

(** [v] is a regular nested array of the given shape: not an Array for the
    empty shape, and otherwise an Array of [n > 0] regular elements of the
    rest of the shape. *)
Fixpoint regular (shape : list Z) (v : value) : Prop :=
  match shape with
  | [] => match v with VArr _ => False | _ => True end
  | n :: shape' =>
      match v with
      | VArr l => Z.of_nat (length l) = n /\ 0 < n /\ Forall (regular shape') l
      | _ => False
      end
  end.

(** The leaves of a nested array in row-major order. *)
Fixpoint leaves (v : value) : list value :=
  match v with
  | VArr l => flat_map leaves l
  | _ => [v]
  end.

(** [[[1, 2, 3], [4, 5, 6]]] *)
Definition nested_2x3 : list value :=
  [VArr (nums [1; 2; 3]); VArr (nums [4; 5; 6])].

(** [[[1, 2, 300], [-3, 4, 5]]] as the data of a uint8 raster. *)
Definition options_nested_u8 : options :=
  {| o_dtype := Some "uint8"%string; o_copy := false; o_shape := None;
     o_data := Some (GenericData [VArr (nums [1; 2; 300]); VArr (nums [-3; 4; 5])]) |}.

(** The integer part of a finite Number (0 for the others, as
    [ToIntegerOrInfinity] followed by the modular reduction gives). *)
Definition num_trunc (x : number) : Z :=
  match x with
  | Fin q => Qtrunc q
  | _ => 0
  end.

(** The kinds whose typed arrays hold Numbers. *)
Definition number_kind (t : dtype) : Prop := t <> uint64 /\ t <> int64.

(** Every element of the array is a Number. *)
Definition holds_numbers (a : typedarray) : Prop :=
  Forall (fun e => exists x, e = VNum x) (ta_elems a).

(** * Properties *)

(** ** Rounding, on examples *)

Example fl64_small : fl64 (5 # 2) = Fin (5 # 2).
Proof. reflexivity. Qed.

Example fl64_2p63m1 : fl64 (inject_Z (2 ^ 63 - 1)) = Fin (inject_Z (2 ^ 63)).
Proof. vm_compute. reflexivity. Qed.

Example fl64_2p53p1 : fl64 (inject_Z (2 ^ 53 + 1)) = Fin (inject_Z (2 ^ 53)).
Proof. vm_compute. reflexivity. Qed.

Example fl64_2p53p3 : fl64 (inject_Z (2 ^ 53 + 3)) = Fin (inject_Z (2 ^ 53 + 4)).
Proof. vm_compute. reflexivity. Qed.

Example fround_tenth : fround (Fin (1 # 10)) = Fin (13421773 # 134217728).
Proof. vm_compute. reflexivity. Qed.

Example fround_big : fround (Fin (inject_Z (2 ^ 128))) = PosInf.
Proof. vm_compute. reflexivity. Qed.

Example fround_16777217 : fround (of_Z 16777217) = of_Z 16777216.
Proof. vm_compute. reflexivity. Qed.

(** ** Row-major strides *)

Lemma fold_left_mul (l : list Z) (a : Z) :
  fold_left Z.mul l a = a * fold_left Z.mul l 1.
Proof.
  revert a. induction l as [|x l IH]; intros a; simpl.
  - lia.
  - rewrite (IH (a * x)), (IH (1 * x)). lia.
Qed.

Lemma shape_total_cons (x : Z) (l : list Z) :
  shape_total (x :: l) = x * shape_total l.
Proof. unfold shape_total. simpl. rewrite fold_left_mul. lia. Qed.

Lemma shape_total_nil : shape_total [] = 1.
Proof. reflexivity. Qed.

Lemma tail_total_ge (shape : list Z) (j : nat) :
  (length shape <= j)%nat -> tail_total shape j = 1.
Proof. intros H. unfold tail_total. rewrite drop_ge by lia. reflexivity. Qed.

Lemma tail_total_step (shape : list Z) (j : nat) (s : Z) :
  shape !! j = Some s -> tail_total shape j = s * tail_total shape (S j).
Proof.
  intros H. unfold tail_total.
  rewrite (drop_S shape s j H). apply shape_total_cons.
Qed.

Lemma fold_left_rev {A B} (f : A -> B -> A) (l : list B) (a : A) :
  fold_left f (rev l) a = fold_right (fun x acc => f acc x) a l.
Proof.
  induction l as [|x l IH]; simpl; [reflexivity|].
  rewrite fold_left_app. simpl. rewrite IH. reflexivity.
Qed.

Lemma compute_strides_upto (shape : list Z) :
  compute_strides shape = strides_upto shape (length shape - 1).
Proof.
  unfold compute_strides, strides_upto.
  rewrite fold_left_rev.
  replace (length shape - 1 - (length shape - 1))%nat with O by lia.
  reflexivity.
Qed.

Lemma strides_upto_S (shape : list Z) (k : nat) :
  (S k < length shape)%nat ->
  strides_upto shape (S k) =
  stride_step shape (strides_upto shape k) (length shape - 2 - k).
Proof.
  intros H. unfold strides_upto.
  replace (length shape - 1 - S k)%nat with (length shape - 2 - k)%nat by lia.
  replace (length shape - 1 - k)%nat with (S (length shape - 2 - k)) by lia.
  reflexivity.
Qed.

Lemma strides_upto_length (shape : list Z) (k : nat) :
  length (strides_upto shape k) = length shape.
Proof.
  unfold strides_upto.
  generalize (seq (length shape - 1 - k) k). intros l.
  induction l as [|i l IH]; simpl.
  - destruct (length shape); [reflexivity|].
    rewrite length_insert, length_replicate. reflexivity.
  - unfold stride_step. rewrite length_insert. exact IH.
Qed.

Lemma strides_upto_lookup (shape : list Z) (k j : nat) :
  (k < length shape)%nat ->
  (length shape - 1 - k <= j < length shape)%nat ->
  strides_upto shape k !! j = Some (tail_total shape (S j)).
Proof.
  intros Hk. revert j. induction k as [|k IH]; intros j Hj.
  - assert (j = length shape - 1)%nat as -> by lia.
    unfold strides_upto. simpl.
    destruct (length shape) as [|m] eqn:Hn; [lia|].
    replace (S m - 1)%nat with m by lia.
    rewrite list_lookup_insert_eq by (rewrite length_replicate; lia).
    rewrite tail_total_ge by lia. reflexivity.
  - rewrite strides_upto_S by lia. unfold stride_step.
    destruct (decide (j = length shape - 2 - k)%nat) as [->|Hne].
    + rewrite list_lookup_insert_eq by (rewrite strides_upto_length; lia).
      rewrite IH by lia.
      destruct (lookup_lt_is_Some_2 shape (length shape - 2 - k + 1)%nat) as [s Hs]; [lia|].
      rewrite Hs. simpl.
      replace (length shape - 2 - k + 1)%nat with (S (length shape - 2 - k)) in * by lia.
      rewrite (tail_total_step shape _ s Hs). reflexivity.
    + rewrite list_lookup_insert_ne by lia. apply IH; lia.
Qed.

(** Stride [i] is the product of the shape entries after index [i]. *)
Lemma compute_strides_lookup (shape : list Z) (j : nat) :
  (j < length shape)%nat ->
  compute_strides shape !! j = Some (tail_total shape (S j)).
Proof.
  intros H. rewrite compute_strides_upto. apply strides_upto_lookup; lia.
Qed.

Lemma compute_strides_length (shape : list Z) :
  length (compute_strides shape) = length shape.
Proof. rewrite compute_strides_upto. apply strides_upto_length. Qed.

Lemma compute_strides_cons (s : Z) (shape : list Z) :
  compute_strides (s :: shape) = shape_total shape :: compute_strides shape.
Proof.
  apply list_eq. intros j.
  destruct (decide (j < length (s :: shape))%nat) as [Hj|Hj].
  - rewrite compute_strides_lookup by exact Hj.
    destruct j as [|j]; simpl.
    + reflexivity.
    + simpl in Hj. rewrite compute_strides_lookup by lia. reflexivity.
  - rewrite lookup_ge_None_2 by (rewrite compute_strides_length; lia).
    symmetry. apply lookup_ge_None_2. simpl in *.
    rewrite compute_strides_length. lia.
Qed.

Lemma compute_strides_nil : compute_strides [] = [].
Proof. reflexivity. Qed.


(** ** Addressing *)

Lemma dataOffset_from_acc (acc : Z) (position strides : list Z) :
  dataOffset_from acc position strides
  = acc + dataOffset_from 0 position strides.
Proof.
  revert acc strides. induction position as [|p ps IH]; intros acc [|s ss]; simpl; try lia.
  rewrite (IH (acc + p * s)), (IH (p * s)). lia.
Qed.

Lemma shape_total_pos (position shape : list Z) :
  Forall2 (fun p s => 0 <= p <= s - 1) position shape ->
  1 <= shape_total shape.
Proof.
  induction 1 as [|p s ps ss Hp _ IH].
  - rewrite shape_total_nil. lia.
  - rewrite shape_total_cons. nia.
Qed.

(** A valid position addresses an element of the data. *)
Lemma dataOffset_range (position shape : list Z) :
  Forall2 (fun p s => 0 <= p <= s - 1) position shape ->
  0 <= dataOffset_from 0 position (compute_strides shape) < shape_total shape.
Proof.
  induction 1 as [|p s ps ss Hp Hps IH].
  - simpl. rewrite shape_total_nil. lia.
  - rewrite compute_strides_cons, shape_total_cons. simpl.
    rewrite dataOffset_from_acc.
    pose proof (shape_total_pos _ _ Hps). nia.
Qed.

Lemma check_components_ok (i : nat) (position shape : list Z) :
  Forall2 (fun p s => 0 <= p <= s - 1) position shape ->
  check_components i position shape = Ok tt.
Proof.
  intros H. revert i. induction H as [|p s ps ss Hp _ IH]; intros i; simpl.
  - reflexivity.
  - destruct (p <? 0) eqn:E1; [lia|]. destruct (s - 1 <? p) eqn:E2; [lia|].
    simpl. apply IH.
Qed.

Lemma check_components_valid (i : nat) (position shape : list Z) :
  length position = length shape ->
  check_components i position shape = Ok tt ->
  Forall2 (fun p s => 0 <= p <= s - 1) position shape.
Proof.
  revert i shape. induction position as [|p ps IH]; intros i [|s ss] Hl Hc;
    simpl in *; try discriminate.
  - constructor.
  - destruct (p <? 0) eqn:E1; [discriminate|].
    destruct (s - 1 <? p) eqn:E2; [discriminate|]. simpl in Hc.
    constructor; [lia|]. eapply IH; [lia|exact Hc].
Qed.

Lemma throwIfInvalidPosition_ok (r : NdRaster) (position : list Z) :
  _throwIfInvalidPosition r position = Ok tt <-> valid_position r position.
Proof.
  unfold _throwIfInvalidPosition, valid_position. split.
  - destruct (length position =? length (_shape r))%nat eqn:E; simpl; [|discriminate].
    apply Nat.eqb_eq in E. apply check_components_valid. exact E.
  - intros H. rewrite (Forall2_length _ _ _ H), Nat.eqb_refl. simpl.
    apply check_components_ok. exact H.
Qed.

Lemma deref_lookup (h : heap) (l : loc) (a : typedarray) :
  h !! l = Some a -> deref h l = a.
Proof. intros H. unfold deref. rewrite H. reflexivity. Qed.

Lemma deref_insert (h : heap) (l : loc) (a : typedarray) :
  (l < length h)%nat -> deref (<[l := a]> h) l = a.
Proof.
  intros H. unfold deref. rewrite list_lookup_insert_eq by exact H. reflexivity.
Qed.

(** On a raster of dtype [d], [set] at a valid position writes the
    converted bounded value at the offset of the position, and [get] then
    reads it back. *)
Lemma set_get (d : dtype) (r : NdRaster) (h : heap) (position : list Z)
    (v e : value) (a : typedarray) :
  raster_of d r h ->
  h !! _data r = Some a ->
  valid_position r position ->
  isNaN v = Ok false ->
  ta_convert d (set_bounded (DTYPE_TO_BOUND d) v) = Ok e ->
  let off := Z.to_nat (dataOffset r position) in
  let a' := {| ta_dtype := ta_dtype a; ta_elems := <[off := e]> (ta_elems a) |} in
  (off < length (ta_elems a))%nat
  /\ set r h position v = Ok (<[_data r := a']> h)
  /\ get r (<[_data r := a']> h) position = Ok e.
Proof.
  intros [[a0 (Ha0 & Hd & Htot)] Hdt Hst Hb] Ha Hp Hnan Hconv off a'.
  rewrite Ha in Ha0. injection Ha0 as <-. subst d.
  pose proof (dataOffset_range _ _ Hp) as Hoff.
  rewrite <- Hst in Hoff. fold (dataOffset r position) in Hoff.
  rewrite Htot in Hoff. unfold ta_length in Hoff.
  assert (off < length (ta_elems a))%nat as Hlt by (subst off; lia).
  split; [exact Hlt|].
  assert (_throwIfInvalidPosition r position = Ok tt) as Hchk
    by (apply throwIfInvalidPosition_ok; exact Hp).
  split.
  - unfold set. rewrite Hnan. simpl. rewrite Hchk. simpl. rewrite Hb.
    fold (set_bounded (DTYPE_TO_BOUND (ta_dtype a)) v).
    unfold ta_set. rewrite (deref_lookup _ _ _ Ha), Hconv. simpl.
    unfold ta_length.
    destruct (dataOffset r position <? 0) eqn:E1; [lia|].
    destruct (Z.of_nat (length (ta_elems a)) <=? dataOffset r position) eqn:E2; [lia|].
    reflexivity.
  - unfold get. rewrite Hchk. simpl.
    rewrite deref_insert by (eapply lookup_lt_Some; exact Ha).
    unfold ta_get. destruct (dataOffset r position <? 0) eqn:E1; [lia|].
    simpl. fold off. rewrite list_lookup_insert_eq by exact Hlt. reflexivity.
Qed.

(** ** Integers among the rationals *)

Lemma is_integer_eq (q : Q) :
  is_integer q = true -> (q == inject_Z (Qfloor q))%Q.
Proof. unfold is_integer. apply Qeq_bool_iff. Qed.

Lemma Qle_bool_inject_l (a : Z) (q : Q) :
  is_integer q = true -> Qle_bool (inject_Z a) q = (a <=? Qfloor q).
Proof.
  intros Hi. apply is_integer_eq in Hi. apply Bool.eq_iff_eq_true.
  rewrite Qle_bool_iff, Z.leb_le. rewrite Hi at 1. rewrite <- Zle_Qle. reflexivity.
Qed.

Lemma Qle_bool_inject_r (a : Z) (q : Q) :
  is_integer q = true -> Qle_bool q (inject_Z a) = (Qfloor q <=? a).
Proof.
  intros Hi. apply is_integer_eq in Hi. apply Bool.eq_iff_eq_true.
  rewrite Qle_bool_iff, Z.leb_le. rewrite Hi at 1. rewrite <- Zle_Qle. reflexivity.
Qed.

Lemma Qtrunc_integer (q : Q) : is_integer q = true -> Qtrunc q = Qfloor q.
Proof.
  intros Hi. unfold Qtrunc. destruct (Qle_bool 0 q); [reflexivity|].
  apply is_integer_eq in Hi. unfold Qceiling.
  assert (- q == inject_Z (- Qfloor q))%Q as H.
  { rewrite Hi at 1. rewrite inject_Z_opp. reflexivity. }
  rewrite H, Qfloor_Z. lia.
Qed.

Lemma Qtrunc_inject (z : Z) : Qtrunc (inject_Z z) = z.
Proof.
  unfold Qtrunc. destruct (Qle_bool 0 (inject_Z z)).
  - apply Qfloor_Z.
  - unfold Qceiling. rewrite <- inject_Z_opp, Qfloor_Z. lia.
Qed.

Lemma num_eqb_integer (q : Q) :
  is_integer q = true -> num_eqb (of_Z (Qfloor q)) (Fin q) = true.
Proof.
  intros Hi. simpl. apply Qeq_bool_iff. symmetry. apply is_integer_eq. exact Hi.
Qed.

Lemma num_eqb_refl (v : number) : v <> NaN -> num_eqb v v = true.
Proof.
  destruct v; simpl; try reflexivity; [congruence|].
  intros _. apply Qeq_bool_iff. reflexivity.
Qed.

(** ** Saturation on write *)

(** With bounds [lo, hi] on which the modular reduction is the identity,
    the integer stored for an integer or infinite [v] is [v] saturated. *)
Lemma int_store_saturate (sg : bool) (w lo hi : Z) (v : number) :
  (forall z, lo <= z <= hi -> wrap sg w z = z) ->
  lo <= hi ->
  match v with Fin q => is_integer q = true | NaN => False | _ => True end ->
  let b := {| b_min := of_Z lo; b_max := of_Z hi |} in
  exists y, set_bounded b (VNum v) = VNum y
            /\ num_eqb (of_Z (to_int sg w y)) (saturate v b) = true.
Proof.
  intros Hw Hlh Hv b. unfold set_bounded, saturate, val_lt, val_gt, num_gt. simpl.
  destruct v as [| | |q]; simpl; try contradiction.
  - exists (of_Z lo). split; [reflexivity|]. simpl.
    rewrite Qtrunc_inject, Hw by lia. apply Qeq_bool_iff. reflexivity.
  - exists (of_Z hi). split; [reflexivity|]. simpl.
    rewrite Qtrunc_inject, Hw by lia. apply Qeq_bool_iff. reflexivity.
  - unfold Qlt_bool. rewrite Qle_bool_inject_l, Qle_bool_inject_r by exact Hv.
    destruct (Z.leb_spec (Qfloor q) hi) as [H2|H2];
      destruct (Z.leb_spec lo (Qfloor q)) as [H1|H1]; simpl; try lia.
    + exists (Fin q). split; [reflexivity|]. simpl.
      rewrite Qtrunc_integer, Hw by (exact Hv || lia).
      apply num_eqb_integer. exact Hv.
    + exists (of_Z lo). split; [reflexivity|]. simpl.
      rewrite Qtrunc_inject, Hw by lia. apply Qeq_bool_iff. reflexivity.
    + exists (of_Z hi). split; [reflexivity|]. simpl.
      rewrite Qtrunc_inject, Hw by lia. apply Qeq_bool_iff. reflexivity.
Qed.

Lemma wrap_unsigned_small (w z : Z) : 0 <= z < 2 ^ w -> wrap false w z = z.
Proof. intros H. unfold wrap. apply Z.mod_small. exact H. Qed.

Lemma wrap_signed_small (w z : Z) :
  0 < w -> - 2 ^ (w - 1) <= z < 2 ^ (w - 1) -> wrap true w z = z.
Proof.
  intros Hw H. unfold wrap.
  replace (2 ^ w) with (2 * 2 ^ (w - 1)).
  - rewrite Z.mod_small by lia. lia.
  - rewrite <- Z.pow_succ_r by lia. f_equal. lia.
Qed.

Lemma float_bounds_keep (v : number) :
  set_bounded {| b_min := NegInf; b_max := PosInf |} (VNum v) = VNum v
  /\ saturate v {| b_min := NegInf; b_max := PosInf |} = v.
Proof. destruct v; split; reflexivity. Qed.

Lemma convert_saturate (d : dtype) (v : number) :
  stored_exactly d v ->
  exists x, ta_convert d (set_bounded (DTYPE_TO_BOUND d) (VNum v)) = Ok (VNum x)
            /\ num_eqb x (saturate v (DTYPE_TO_BOUND d)) = true.
Proof.
  intros Hv. destruct d; simpl in Hv; try contradiction.
  - change (DTYPE_TO_BOUND uint8) with {| b_min := of_Z 0; b_max := of_Z 255 |}.
    destruct (int_store_saturate false 8 0 255 v) as (y & Hy & He); try assumption; try lia.
    { intros z Hz. apply wrap_unsigned_small. lia. }
    rewrite Hy. eexists. split; [reflexivity|exact He].
  - change (DTYPE_TO_BOUND int8) with {| b_min := of_Z (-128); b_max := of_Z 127 |}.
    destruct (int_store_saturate true 8 (-128) 127 v) as (y & Hy & He); try assumption; try lia.
    { intros z Hz. apply wrap_signed_small; lia. }
    rewrite Hy. eexists. split; [reflexivity|exact He].
  - change (DTYPE_TO_BOUND int16) with {| b_min := of_Z (-32768); b_max := of_Z 32767 |}.
    destruct (int_store_saturate true 16 (-32768) 32767 v) as (y & Hy & He); try assumption; try lia.
    { intros z Hz. apply wrap_signed_small; lia. }
    rewrite Hy. eexists. split; [reflexivity|exact He].
  - change (DTYPE_TO_BOUND int32) with {| b_min := of_Z (-2147483648); b_max := of_Z 2147483647 |}.
    destruct (int_store_saturate true 32 (-2147483648) 2147483647 v) as (y & Hy & He); try assumption; try lia.
    { intros z Hz. apply wrap_signed_small; lia. }
    rewrite Hy. eexists. split; [reflexivity|exact He].
  - change (DTYPE_TO_BOUND float32) with {| b_min := NegInf; b_max := PosInf |}.
    destruct (float_bounds_keep v) as [-> ->]. simpl.
    exists (fround v). split; [reflexivity|]. apply Hv.
  - change (DTYPE_TO_BOUND float64) with {| b_min := NegInf; b_max := PosInf |}.
    destruct (float_bounds_keep v) as [-> ->]. simpl.
    exists v. split; [reflexivity|]. apply num_eqb_refl. exact Hv.
Qed.

(** ** Construction *)

Lemma bind_ok {A B} (c : result A) (k : A -> result B) (b : B) :
  bind c k = Ok b -> exists a, c = Ok a /\ k a = Ok b.
Proof. destruct c as [a|]; simpl; [eauto|discriminate]. Qed.

Lemma guessDtype_typed (h : heap) (l : loc) (a : typedarray) :
  h !! l = Some a -> guessDtype h (Some (TypedData l)) = Some (ta_dtype a).
Proof. intros H. unfold guessDtype. rewrite H. destruct (ta_dtype a); reflexivity. Qed.

Lemma guessDtype_inv (h : heap) (arr : option data_in) (g : dtype) :
  guessDtype h arr = Some g ->
  exists l a, arr = Some (TypedData l) /\ h !! l = Some a /\ ta_dtype a = g.
Proof.
  destruct arr as [[l|?]|]; try discriminate.
  destruct (h !! l) as [a|] eqn:Ha.
  - rewrite (guessDtype_typed h l a Ha). intros [= <-]. eauto.
  - unfold guessDtype. rewrite Ha. discriminate.
Qed.

Lemma dtype_of_string_name (d : dtype) : dtype_of_string (dtype_name d) = Some d.
Proof. destruct d; reflexivity. Qed.

Lemma ta_new_inv (d : dtype) (n : Z) (a : typedarray) :
  ta_new d n = Ok a -> ta_dtype a = d /\ ta_length a = n.
Proof.
  unfold ta_new. destruct (n <? 0) eqn:E; [discriminate|].
  intros [= <-]. split; [reflexivity|]. unfold ta_length. simpl.
  rewrite length_replicate. lia.
Qed.

Lemma ta_set_inv (a a' : typedarray) (i : Z) (v : value) :
  ta_set a i v = Ok a' ->
  ta_dtype a' = ta_dtype a /\ ta_length a' = ta_length a
  /\ exists e, ta_convert (ta_dtype a) v = Ok e.
Proof.
  unfold ta_set. destruct (ta_convert (ta_dtype a) v) as [e|]; simpl; [|discriminate].
  destruct ((i <? 0) || (ta_length a <=? i)); intros [= <-].
  - repeat split; eauto.
  - unfold ta_length. simpl. rewrite length_insert. repeat split; eauto.
Qed.

Lemma copyDataAsType_loop_inv (b : bound) (src : list value) (i : Z)
    (a a' : typedarray) :
  copyDataAsType_loop b src i a = Ok a' ->
  ta_dtype a' = ta_dtype a /\ ta_length a' = ta_length a.
Proof.
  revert i a. induction src as [|x src IH]; intros i a; simpl.
  - intros [= <-]. split; reflexivity.
  - destruct (ta_set a i _) as [a1|] eqn:E; simpl; [|discriminate].
    intros H. apply IH in H as [H1 H2]. apply ta_set_inv in E as (E1 & E2 & _).
    split; congruence.
Qed.

(** [copyDataAsType] returns a new typed array of the target kind. *)
Lemma copyDataAsType_inv (h : heap) (arr : data_in) (t : dtype) (l : loc)
    (h' : heap) :
  copyDataAsType h arr t = Ok (l, h') ->
  l = length h /\ exists a, h' = h ++ [a] /\ ta_dtype a = t.
Proof.
  unfold copyDataAsType.
  set (convert := bind (ta_new t _) _).
  assert (convert = Ok (l, h') ->
          l = length h /\ exists a, h' = h ++ [a] /\ ta_dtype a = t) as Hc.
  { unfold convert.
    destruct (ta_new t _) as [a0|] eqn:E0; simpl; [|discriminate].
    destruct (copyDataAsType_loop _ _ _ _) as [a1|] eqn:E1; simpl; [|discriminate].
    unfold alloc. intros [= <- <-]. split; [reflexivity|]. exists a1.
    split; [reflexivity|].
    apply copyDataAsType_loop_inv in E1 as [E1 _]. apply ta_new_inv in E0 as [E0 _].
    congruence. }
  destruct arr as [l0|g]; [|exact Hc].
  destruct (guessDtype h (Some (TypedData l0))) as [g|] eqn:G; [|exact Hc].
  case_bool_decide as Hg; [|exact Hc].
  unfold alloc. intros [= <- <-]. split; [reflexivity|].
  eexists. split; [reflexivity|]. simpl.
  apply guessDtype_inv in G as (l1 & a1 & [= <-] & Ha1 & <-).
  rewrite (deref_lookup _ _ _ Ha1). exact Hg.
Qed.

Lemma set_shape_inv (r r' : NdRaster) (h : heap) (shape : list Z) :
  set_shape r h shape = Ok r' ->
  shape_total shape = ta_length (deref h (_data r))
  /\ r' = {| _data := _data r; _dtype := _dtype r; _shape := shape;
             _strides := compute_strides shape; _typeBound := _typeBound r |}.
Proof.
  unfold set_shape. destruct (shape_total shape =? _) eqn:E; simpl; [|discriminate].
  intros [= <-]. split; [lia|reflexivity].
Qed.

Lemma finish_inv (l : loc) (d : option dtype) (shape : option (list Z))
    (h h' : heap) (r : NdRaster) :
  finish l d shape h = Ok (r, h') ->
  h' = h /\ _data r = l /\ _dtype r = d
  /\ _strides r = compute_strides (_shape r)
  /\ _typeBound r = option_map DTYPE_TO_BOUND d
  /\ _shape r = default [ta_length (deref h l)] shape
  /\ shape_total (_shape r) = ta_length (deref h l).
Proof.
  unfold finish. destruct (set_shape _ _ _) as [r0|] eqn:E; simpl; [|discriminate].
  apply set_shape_inv in E as [Ht ->]. simpl. intros [= <- <-]. simpl.
  repeat split; try reflexivity; destruct shape; simpl in *; exact Ht.
Qed.

Lemma construct_resolve (o : options) (h : heap) (x : NdRaster * heap) :
  construct o h = Ok x ->
  resolve (provided_dtype o) (o_copy o) (o_shape o) (o_data o) h = Ok x.
Proof.
  unfold construct, provided_dtype.
  destruct (o_shape o), (o_data o); try discriminate;
    destruct (truthy_dtype (o_dtype o)); simpl; try (intros H; exact H);
    destruct (dtype_of_string _); try discriminate; intros H; exact H.
Qed.

Lemma resolve_inv (o : options) (h h' : heap) (r : NdRaster) :
  resolve (provided_dtype o) (o_copy o) (o_shape o) (o_data o) h = Ok (r, h') ->
  exists l d shape, finish l d shape h' = Ok (r, h') /\ origin o h l d h'
                    /\ (forall s, o_shape o = Some s -> shape = Some s).
Proof.
  unfold resolve. intros H'. destruct (o_data o) as [arr'|] eqn:Hoda.
  - destruct (isGenericArray (Some arr') || _ || o_copy o) eqn:Hc.
    + assert (exists arr shape l1 h1,
                 copyDataAsType h arr (default float64 (provided_dtype o)) = Ok (l1, h1)
                 /\ finish l1 (Some (default float64 (provided_dtype o))) shape h1
                    = Ok (r, h')
                 /\ (forall s, o_shape o = Some s -> shape = Some s))
        as (arr & shape & l1 & h1 & E & F & Hs).
      { destruct arr' as [l0|g].
        - apply bind_ok in H' as ([l1 h1] & E & F). eauto 8.
        - apply bind_ok in H' as ([array nestedShape] & _ & H').
          apply bind_ok in H' as ([l1 h1] & E & F).
          eexists _, _, _, _. split; [exact E|]. split; [exact F|].
          intros s Hs. rewrite Hs. reflexivity. }
      pose proof (finish_inv _ _ _ _ _ _ F) as [-> _].
      apply copyDataAsType_inv in E as (-> & a & -> & Hd).
      eexists _, _, _. split; [exact F|]. split; [|exact Hs].
      eapply Fresh; eauto. right. split; [congruence|].
      f_equal. symmetry. exact Hd.
    + apply orb_false_iff in Hc as [_ Hcp]. rewrite Hcp in H'.
      destruct (guessDtype h (Some arr')) as [g|] eqn:G; [|discriminate].
      destruct arr' as [l0|?]; [|discriminate].
      pose proof (finish_inv _ _ _ _ _ _ H') as [-> _].
      apply guessDtype_inv in G as (l1 & a1 & [= <-] & Ha1 & <-).
      eexists _, _, _. split; [exact H'|]. split; [|auto].
      eapply Alias; eauto.
  - apply bind_ok in H' as (n & _ & H').
    apply bind_ok in H' as (a & _ & H'). unfold alloc in H'.
    pose proof (finish_inv _ _ _ _ _ _ H') as [-> _].
    eexists _, _, _. split; [exact H'|]. split; [|auto].
    eapply Fresh; eauto.
Qed.

Lemma construct_inv (o : options) (h h' : heap) (r : NdRaster) :
  construct o h = Ok (r, h') ->
  exists l d shape, finish l d shape h' = Ok (r, h') /\ origin o h l d h'
                    /\ (forall s, o_shape o = Some s -> shape = Some s).
Proof. intros H. apply resolve_inv, construct_resolve, H. Qed.

(** ** The stride invariant *)

Lemma stride_invariant_intro (r : NdRaster) (h : heap) :
  _strides r = compute_strides (_shape r) ->
  shape_total (_shape r) = ta_length (deref h (_data r)) ->
  stride_invariant r h.
Proof.
  intros Hs Ht. unfold stride_invariant. rewrite Hs.
  split; [apply compute_strides_length|].
  split; [|split; [|exact Ht]].
  - intros i Hi. rewrite compute_strides_lookup by lia.
    rewrite tail_total_ge by lia. reflexivity.
  - intros i Hi.
    destruct (lookup_lt_is_Some_2 (_shape r) (i + 1)%nat) as [s Hsi]; [lia|].
    exists s, (tail_total (_shape r) (S (i + 1))).
    split; [exact Hsi|]. rewrite !compute_strides_lookup by lia.
    split; [reflexivity|]. f_equal.
    replace (S i) with (i + 1)%nat by lia.
    apply tail_total_step. exact Hsi.
Qed.

Lemma construct_strides (o : options) (h h' : heap) (r : NdRaster) :
  construct o h = Ok (r, h') ->
  _strides r = compute_strides (_shape r)
  /\ shape_total (_shape r) = ta_length (deref h' (_data r)).
Proof.
  intros H. apply construct_inv in H as (l & d & shape & F & _ & _).
  apply finish_inv in F as (_ & Hl & _ & Hs & _ & _ & Ht).
  rewrite Hl. split; assumption.
Qed.

(** A raster constructed from data is a raster of the dtype it records. *)
Lemma construct_raster_of (o : options) (h h' : heap) (r : NdRaster) :
  o_data o <> None ->
  construct o h = Ok (r, h') ->
  exists d, raster_of d r h'.
Proof.
  intros Hd H. apply construct_inv in H as (l & d & shape & F & Ho & _).
  apply finish_inv in F as (_ & Hl & Hdt & Hs & Hb & _ & Ht).
  assert (exists a, h' !! l = Some a /\ d = Some (ta_dtype a)) as (a & Ha & ->).
  { destruct Ho as [a -> -> Hor|a -> _ Ha -> _].
    - exists a. split.
      + rewrite lookup_app_r by lia. rewrite Nat.sub_diag. reflexivity.
      + destruct Hor as [[? _]|[_ ?]]; [contradiction|assumption].
    - exists a. split; [assumption|reflexivity]. }
  exists (ta_dtype a). split.
  - exists a. rewrite Hl. split; [exact Ha|]. split; [reflexivity|].
    rewrite Ht, (deref_lookup _ _ _ Ha). reflexivity.
  - exact Hdt.
  - exact Hs.
  - exact Hb.
Qed.

(** C6.  After every successful construction, and after every successful
    assignment of a shape, the strides have the length of the shape, the
    last stride is 1, every other stride is the product of the next shape
    entry and the next stride, and the product of the shape is the number of
    elements of the data. *)
Theorem stride_invariant_holds :
  (forall o h r h', construct o h = Ok (r, h') -> stride_invariant r h')
  /\ (forall r h shape r', set_shape r h shape = Ok r' -> stride_invariant r' h).
Proof.
  split.
  - intros o h r h' H. apply construct_strides in H as [Hs Ht].
    apply stride_invariant_intro; assumption.
  - intros r h shape r' H. apply set_shape_inv in H as [Ht ->].
    apply stride_invariant_intro; [reflexivity|exact Ht].
Qed.

Lemma stride_invariant_holds_witness :
  stride_invariant raster_u8 [zeros_u8]
  /\ stride_invariant
       {| _data := 0%nat; _dtype := Some uint8; _shape := [2; 2];
          _strides := [2; 1]; _typeBound := Some (DTYPE_TO_BOUND uint8) |}
       [zeros_u8].
Proof.
  split.
  - apply (proj1 stride_invariant_holds options_u8 [zeros_u8]). reflexivity.
  - apply (proj2 stride_invariant_holds raster_u8 [zeros_u8] [2; 2]). reflexivity.
Defined.

(** ** Shape assignment *)

(** C7, counterexample.  On a raster of four elements the shape [-2, -2] is
    accepted, and on a raster of one element the empty shape is: the setter
    only compares the product of the entries with the element count. *)
Lemma set_shape_accepts_ill_formed :
  set_shape raster_u8 [zeros_u8] [-2; -2]
  = Ok {| _data := 0%nat; _dtype := Some uint8; _shape := [-2; -2];
          _strides := [-2; 1]; _typeBound := Some (DTYPE_TO_BOUND uint8) |}
  /\ set_shape raster_u8 [{| ta_dtype := uint8; ta_elems := nums [7] |}] []
     = Ok {| _data := 0%nat; _dtype := Some uint8; _shape := [];
             _strides := []; _typeBound := Some (DTYPE_TO_BOUND uint8) |}.
Proof. split; reflexivity. Qed.

(** C7, amended.  Assigning a shape succeeds exactly when the product of its
    entries (1 for the empty shape) is the number of elements of the data,
    and fails with the shape/size mismatch error otherwise; a shape accepted
    at construction has that product as well. *)
Theorem set_shape_accepts_iff (r : NdRaster) (h : heap) (shape : list Z) :
  (shape_total shape = ta_length (deref h (_data r)) ->
     exists r', set_shape r h shape = Ok r' /\ _shape r' = shape
                /\ _data r' = _data r)
  /\ (shape_total shape <> ta_length (deref h (_data r)) ->
        set_shape r h shape = Err ErrShapeMismatch)
  /\ (forall o r' h', o_shape o = Some shape -> construct o h = Ok (r', h') ->
        _shape r' = shape
        /\ shape_total shape = ta_length (deref h' (_data r'))).
Proof.
  split; [|split].
  - intros H. unfold set_shape. rewrite H, Z.eqb_refl. simpl.
    eexists. split; [reflexivity|]. split; reflexivity.
  - intros H. unfold set_shape.
    destruct (Z.eqb_spec (shape_total shape) (ta_length (deref h (_data r))));
      [contradiction|reflexivity].
  - intros o r' h' Hs H. apply construct_inv in H as (l & d & sh & F & _ & Hsh).
    rewrite (Hsh _ Hs) in F.
    apply finish_inv in F as (_ & Hl & _ & _ & _ & Hshape & Ht).
    simpl in Hshape. rewrite Hshape in Ht. rewrite Hl. split; assumption.
Qed.

Lemma set_shape_accepts_iff_witness :
  (exists r', set_shape raster_u8 [zeros_u8] [2; 2] = Ok r'
              /\ _shape r' = [2; 2] /\ _data r' = 0%nat)
  /\ set_shape raster_u8 [zeros_u8] [3; 2] = Err ErrShapeMismatch
  /\ (_shape raster_u8 = [4]
      /\ shape_total [4] = ta_length (deref [zeros_u8] (_data raster_u8))).
Proof.
  split; [|split].
  - apply (proj1 (set_shape_accepts_iff raster_u8 [zeros_u8] [2; 2])). reflexivity.
  - apply (proj1 (proj2 (set_shape_accepts_iff raster_u8 [zeros_u8] [3; 2]))).
    discriminate.
  - apply (proj2 (proj2 (set_shape_accepts_iff raster_u8 [zeros_u8] [4]))
             {| o_dtype := Some "uint8"%string; o_copy := false;
                o_shape := Some [4]; o_data := Some (TypedData 0%nat) |}
             raster_u8 [zeros_u8]); reflexivity.
Defined.

(** ** Round trip of [set] and [get] *)

Lemma raster_u8_of : raster_of uint8 raster_u8 [zeros_u8].
Proof.
  split; try reflexivity.
  exists zeros_u8. split; [reflexivity|]. split; reflexivity.
Defined.

(** C1, counterexample.  On the uint8 raster over [new Uint8Array(4)],
    [set([1], 1.5)] succeeds and [get([1])] then returns 1, whereas 1.5 lies
    within the bounds [0, 255] and saturates to itself. *)
Lemma set_get_fraction_uint8 :
  construct options_u8 [zeros_u8] = Ok (raster_u8, [zeros_u8])
  /\ valid_position raster_u8 [1]
  /\ bounds raster_u8 = Ok {| b_min := of_Z 0; b_max := of_Z 255 |}
  /\ saturate (Fin (3 # 2)) {| b_min := of_Z 0; b_max := of_Z 255 |} = Fin (3 # 2)
  /\ exists h', set raster_u8 [zeros_u8] [1] (VNum (Fin (3 # 2))) = Ok h'
                /\ get raster_u8 h' [1] = Ok (VNum (of_Z 1))
                /\ num_eqb (of_Z 1) (Fin (3 # 2)) = false.
Proof.
  split; [reflexivity|].
  split; [repeat constructor; lia|].
  split; [reflexivity|].
  split; [reflexivity|].
  eexists. split; [reflexivity|]. split; reflexivity.
Qed.

(** C1, amended.  On a raster of dtype uint8, int8, int16 or int32 and an
    integer or infinite value, on a float64 raster and any Number but NaN,
    and on a float32 raster and a single-precision Number, [set] at a valid
    position followed by [get] at that position returns the value saturated
    into the bounds of the raster. *)
Theorem set_get_saturate (d : dtype) (r : NdRaster) (h : heap)
    (position : list Z) (v : number) :
  raster_of d r h ->
  valid_position r position ->
  stored_exactly d v ->
  exists h' x b,
    set r h position (VNum v) = Ok h'
    /\ get r h' position = Ok (VNum x)
    /\ bounds r = Ok b
    /\ num_eqb x (saturate v b) = true.
Proof.
  intros Hr Hp Hv.
  destruct (convert_saturate d v Hv) as (x & Hx & Hsat).
  destruct (ro_data _ _ _ Hr) as (a & Ha & _).
  assert (isNaN (VNum v) = Ok false) as Hnan.
  { destruct d, v; simpl in Hv; try contradiction; try reflexivity;
      try (exfalso; apply Hv; reflexivity); destruct Hv as [Hv _]; congruence. }
  destruct (set_get d r h position (VNum v) (VNum x) a Hr Ha Hp Hnan Hx)
    as (_ & Hset & Hget).
  eexists _, x, (DTYPE_TO_BOUND d).
  split; [exact Hset|]. split; [exact Hget|].
  split; [|exact Hsat].
  unfold bounds. rewrite (ro_bound _ _ _ Hr). destruct (DTYPE_TO_BOUND d). reflexivity.
Qed.

Lemma set_get_saturate_witness :
  exists h' x b,
    set raster_u8 [zeros_u8] [2] (VNum (of_Z 300)) = Ok h'
    /\ get raster_u8 h' [2] = Ok (VNum x)
    /\ bounds raster_u8 = Ok b
    /\ num_eqb x (saturate (of_Z 300) b) = true.
Proof.
  apply (set_get_saturate uint8 raster_u8 [zeros_u8] [2] (of_Z 300)).
  - exact raster_u8_of.
  - repeat constructor; lia.
  - reflexivity.
Defined.

(** The two saturation examples of the specification. *)
Example saturation_uint8_300 :
  exists h', set raster_u8 [zeros_u8] [0] (VNum (of_Z 300)) = Ok h'
             /\ get raster_u8 h' [0] = Ok (VNum (of_Z 255)).
Proof. eexists. split; reflexivity. Qed.

Example saturation_uint8_neg5 :
  exists h', set raster_u8 [zeros_u8] [0] (VNum (of_Z (-5))) = Ok h'
             /\ get raster_u8 h' [0] = Ok (VNum (of_Z 0)).
Proof. eexists. split; reflexivity. Qed.

(** ** Aliasing *)

Lemma set_inv (r : NdRaster) (h h'' : heap) (position : list Z) (v : value) :
  set r h position v = Ok h'' ->
  isNaN v = Ok false
  /\ valid_position r position
  /\ exists typeBound a',
       _typeBound r = Some typeBound
       /\ ta_set (deref h (_data r)) (dataOffset r position)
            (set_bounded typeBound v) = Ok a'
       /\ h'' = <[_data r := a']> h.
Proof.
  unfold set. intros H.
  apply bind_ok in H as (nan & Hnan & H). destruct nan; [discriminate|].
  apply bind_ok in H as ([] & Hchk & H).
  destruct (_typeBound r) as [typeBound|]; [|discriminate].
  apply bind_ok in H as (a' & Hset & [= <-]).
  split; [exact Hnan|]. split; [apply throwIfInvalidPosition_ok; exact Hchk|].
  exists typeBound, a'. split; [reflexivity|]. split; [exact Hset|reflexivity].
Qed.

(** A write through a raster leaves every other typed array alone. *)
Lemma set_frame (r : NdRaster) (h h'' : heap) (position : list Z) (v : value)
    (l : loc) :
  set r h position v = Ok h'' -> l <> _data r -> h'' !! l = h !! l.
Proof.
  intros H Hne. apply set_inv in H as (_ & _ & tb & a' & _ & _ & ->).
  apply list_lookup_insert_ne. congruence.
Qed.

Lemma provided_dtype_named (o : options) (s : string) (d : dtype) :
  o_dtype o = Some s -> dtype_of_string s = Some d -> provided_dtype o = Some d.
Proof.
  intros Hs Hd. unfold provided_dtype. rewrite Hs. simpl.
  destruct (String.eqb_spec s ""); [subst; discriminate|]. exact Hd.
Qed.

(** The constructor on a typed array: it converts into a new array when
    a dtype other than the array's is provided or a copy is requested, and
    keeps the array otherwise. *)
Lemma resolve_typed (provided : option dtype) (copy : bool)
    (shape : option (list Z)) (l : loc) (h : heap) (a : typedarray) :
  h !! l = Some a ->
  resolve provided copy shape (Some (TypedData l)) h
  = if (negb (bool_decide (Some (ta_dtype a) = Some (default float64 provided)))
        && bool_decide (provided <> None)) || copy
    then do (l', h') <- copyDataAsType h (TypedData l) (default float64 provided) ;
         finish l' (Some (default float64 provided)) shape h'
    else finish l (Some (ta_dtype a)) shape h.
Proof.
  intros Ha. unfold resolve. rewrite (guessDtype_typed h l a Ha).
  unfold isGenericArray. rewrite orb_false_l.
  destruct (_ && _); simpl; [reflexivity|].
  destruct copy; reflexivity.
Qed.

(** With [copy] false, a typed array is kept by the constructor when no
    dtype is provided, as well as when the dtype option names the kind of
    the array. *)
Lemma construct_alias (o : options) (h h' : heap) (l : loc) (a : typedarray)
    (r : NdRaster) :
  h !! l = Some a ->
  o_data o = Some (TypedData l) ->
  o_copy o = false ->
  (truthy_dtype (o_dtype o) = None
   \/ exists s, o_dtype o = Some s /\ dtype_of_string s = Some (ta_dtype a)) ->
  construct o h = Ok (r, h') ->
  _data r = l /\ h' = h /\ raster_of (ta_dtype a) r h.
Proof.
  intros Ha Hd Hc Hor H.
  pose proof (construct_raster_of o h h' r ltac:(congruence) H) as [d Hr].
  apply construct_resolve in H.
  rewrite Hd, Hc, (resolve_typed _ _ _ _ _ _ Ha), orb_false_r in H.
  assert (negb (bool_decide (Some (ta_dtype a)
                             = Some (default float64 (provided_dtype o))))
          && bool_decide (provided_dtype o <> None) = false) as Hk.
  { destruct Hor as [Hn|(s & Hs & Hds)].
    - apply andb_false_intro2, bool_decide_eq_false_2.
      unfold provided_dtype. rewrite Hn. simpl. congruence.
    - rewrite (provided_dtype_named o s _ Hs Hds). simpl.
      rewrite bool_decide_eq_true_2 by reflexivity. reflexivity. }
  rewrite Hk in H.
  apply finish_inv in H as (-> & Hl & Hdt & _).
  split; [exact Hl|]. split; [reflexivity|].
  rewrite (ro_dtype _ _ _ Hr) in Hdt. injection Hdt as ->. exact Hr.
Qed.

(** With [copy] true, or with a dtype option that names another kind than
    the buffer's, the data of the raster is a new typed array. *)
Lemma construct_copies (o : options) (h h' : heap) (l : loc) (a : typedarray)
    (r : NdRaster) :
  h !! l = Some a ->
  o_data o = Some (TypedData l) ->
  (o_copy o = true
   \/ exists s d, o_dtype o = Some s /\ dtype_of_string s = Some d
                  /\ d <> ta_dtype a) ->
  construct o h = Ok (r, h') ->
  _data r = length h /\ exists a', h' = h ++ [a'].
Proof.
  intros Ha Hd Hor H. apply construct_resolve in H.
  rewrite Hd, (resolve_typed _ _ _ _ _ _ Ha) in H.
  assert ((negb (bool_decide (Some (ta_dtype a)
                              = Some (default float64 (provided_dtype o))))
           && bool_decide (provided_dtype o <> None)) || o_copy o = true) as Hc.
  { destruct Hor as [->|(s & d & Hs & Hds & Hne)]; [apply orb_true_r|].
    rewrite (provided_dtype_named o s d Hs Hds).
    rewrite bool_decide_eq_false_2 by (simpl; congruence).
    rewrite bool_decide_eq_true_2 by discriminate. reflexivity. }
  rewrite Hc in H. apply bind_ok in H as ([l' h1] & E & F).
  apply finish_inv in F as (-> & Hl & _).
  apply copyDataAsType_inv in E as (-> & a' & -> & _).
  split; [exact Hl|]. eauto.
Qed.

(** A successful construction from a typed array falls under one of the two
    cases above: the dtype option is absent (or falsy), or it names a kind,
    which is the kind of the array or another one. *)
Lemma construct_typed_cases (o : options) (h h' : heap) (l : loc)
    (a : typedarray) (r : NdRaster) :
  o_data o = Some (TypedData l) ->
  construct o h = Ok (r, h') ->
  (o_copy o = false
   /\ (truthy_dtype (o_dtype o) = None
       \/ exists s, o_dtype o = Some s /\ dtype_of_string s = Some (ta_dtype a)))
  \/ (o_copy o = true
      \/ exists s d, o_dtype o = Some s /\ dtype_of_string s = Some d
                     /\ d <> ta_dtype a).
Proof.
  intros Hd H.
  destruct (o_copy o); [right; left; reflexivity|].
  destruct (truthy_dtype (o_dtype o)) as [s|] eqn:Et; [|left; split; auto].
  assert (o_dtype o = Some s) as Hs.
  { unfold truthy_dtype in Et. destruct (o_dtype o) as [s0|]; [|discriminate].
    destruct (String.eqb s0 ""); congruence. }
  destruct (dtype_of_string s) as [d|] eqn:Ed.
  - destruct (decide (d = ta_dtype a)) as [->|Hne].
    + left. split; [reflexivity|]. right. exists s. split; assumption.
    + right. right. exists s, d. repeat split; assumption.
  - exfalso. unfold construct in H. rewrite Et, Hd in H. simpl in H.
    rewrite Ed in H. destruct (o_shape o); discriminate.
Qed.

(** C5, counterexample.  [new NdRaster({ data: new Uint8Array(4) })]: no
    dtype is provided and [copy] is false.  The dtype to use is the default
    float64, which differs from the kind uint8 guessed from the array, yet
    the raster keeps the caller's array (and takes uint8 as dtype):
    [set([1], 7)] through the raster changes the array the caller holds. *)
Lemma construct_default_dtype_shares :
  guessDtype [zeros_u8] (o_data options_u8_data_only) = Some uint8
  /\ default float64 (provided_dtype options_u8_data_only) = float64
  /\ construct options_u8_data_only [zeros_u8] = Ok (raster_u8, [zeros_u8])
  /\ _data raster_u8 = 0%nat
  /\ [zeros_u8] !! 0%nat = Some zeros_u8
  /\ exists h'', set raster_u8 [zeros_u8] [1] (VNum (of_Z 7)) = Ok h''
                 /\ h'' !! 0%nat
                    = Some {| ta_dtype := uint8; ta_elems := nums [0; 7; 0; 0] |}
                 /\ h'' !! 0%nat <> Some zeros_u8.
Proof.
  repeat apply conj; try (vm_compute; reflexivity).
  eexists. split; [vm_compute; reflexivity|].
  split; [reflexivity|]. discriminate.
Qed.

(** C5, amended.  A raster constructed from a typed array with [copy] false
    and either no dtype option or a dtype option naming the kind of the
    array has that very array as data and its kind as dtype: a later [set]
    through the raster is read back from the array the caller holds.  A
    raster constructed with [copy] true, or with a dtype option naming
    another kind, has a new array as data: a later [set] through the raster
    leaves the caller's array as it was.  These are the only two cases: the
    raster shares the array exactly in the first. *)
Theorem construct_aliasing (o : options) (h h' : heap) (l : loc)
    (a : typedarray) (r : NdRaster) :
  h !! l = Some a ->
  o_data o = Some (TypedData l) ->
  construct o h = Ok (r, h') ->
  (o_copy o = false ->
   (truthy_dtype (o_dtype o) = None
    \/ exists s, o_dtype o = Some s /\ dtype_of_string s = Some (ta_dtype a)) ->
   _data r = l /\ h' = h /\ _dtype r = Some (ta_dtype a)
   /\ forall position v h'',
        set r h' position v = Ok h'' ->
        exists e,
          ta_convert (ta_dtype a) (set_bounded (DTYPE_TO_BOUND (ta_dtype a)) v) = Ok e
          /\ h'' !! l = Some {| ta_dtype := ta_dtype a;
                                ta_elems := <[Z.to_nat (dataOffset r position) := e]>
                                              (ta_elems a) |}
          /\ ta_get (deref h'' l) (dataOffset r position) = e
          /\ get r h'' position = Ok e)
  /\ ((o_copy o = true
       \/ exists s d, o_dtype o = Some s /\ dtype_of_string s = Some d
                      /\ d <> ta_dtype a) ->
      _data r <> l /\ h' !! l = Some a
      /\ forall position v h'',
           set r h' position v = Ok h'' -> h'' !! l = Some a)
  /\ (_data r = l
      <-> o_copy o = false
          /\ (truthy_dtype (o_dtype o) = None
              \/ exists s, o_dtype o = Some s
                           /\ dtype_of_string s = Some (ta_dtype a))).
Proof.
  intros Ha Hd H. split; [|split].
  - intros Hc Hor.
    destruct (construct_alias o h h' l a r Ha Hd Hc Hor H) as (Hl & -> & Hr).
    split; [exact Hl|]. split; [reflexivity|].
    split; [exact (ro_dtype _ _ _ Hr)|].
    intros position v h'' Hset.
    pose proof (set_inv _ _ _ _ _ Hset) as (Hnan & Hp & tb & a' & Htb & Hta & _).
    rewrite (ro_bound _ _ _ Hr) in Htb. injection Htb as <-.
    apply ta_set_inv in Hta as (_ & _ & e & He).
    rewrite Hl, (deref_lookup _ _ _ Ha) in He.
    rewrite <- Hl in Ha.
    destruct (set_get _ r h position v e a Hr Ha Hp Hnan He) as (Hlt & Hset' & Hget).
    rewrite Hset' in Hset. injection Hset as <-.
    exists e. split; [exact He|]. rewrite <- Hl.
    assert (<[_data r := {| ta_dtype := ta_dtype a;
                            ta_elems := <[Z.to_nat (dataOffset r position) := e]>
                                          (ta_elems a) |}]> h !! _data r
            = Some {| ta_dtype := ta_dtype a;
                      ta_elems := <[Z.to_nat (dataOffset r position) := e]>
                                    (ta_elems a) |}) as Hlk.
    { apply list_lookup_insert_eq. eapply lookup_lt_Some. exact Ha. }
    split; [exact Hlk|]. split; [|exact Hget].
    rewrite (deref_lookup _ _ _ Hlk). unfold ta_get. simpl.
    pose proof (dataOffset_range _ _ Hp) as Hoff.
    rewrite <- (ro_strides _ _ _ Hr) in Hoff. fold (dataOffset r position) in Hoff.
    destruct (dataOffset r position <? 0) eqn:E; [lia|].
    rewrite list_lookup_insert_eq by exact Hlt. reflexivity.
  - intros Hor.
    destruct (construct_copies o h h' l a r Ha Hd Hor H) as (Hl & a' & ->).
    pose proof (lookup_lt_Some _ _ _ Ha) as Hlt.
    assert ((h ++ [a']) !! l = Some a) as Ha'
      by (rewrite lookup_app_l by exact Hlt; exact Ha).
    split; [lia|]. split; [exact Ha'|].
    intros position v h'' Hset.
    rewrite (set_frame _ _ _ _ _ l Hset) by lia. exact Ha'.
  - destruct (construct_typed_cases o h h' l a r Hd H) as [[Hc Hor]|Hor].
    + destruct (construct_alias o h h' l a r Ha Hd Hc Hor H) as (Hl & _).
      split; [intros _; split; assumption|intros _; exact Hl].
    + destruct (construct_copies o h h' l a r Ha Hd Hor H) as (Hl & _).
      pose proof (lookup_lt_Some _ _ _ Ha) as Hlt.
      split; [intros E; lia|].
      intros [Hc Hor']. exfalso.
      destruct (construct_alias o h h' l a r Ha Hd Hc Hor' H) as (Hl' & _). lia.
Qed.

Lemma construct_aliasing_witness :
  (_dtype raster_u8 = Some uint8
   /\ exists e,
        ta_convert uint8 (set_bounded (DTYPE_TO_BOUND uint8) (VNum (of_Z 7))) = Ok e
        /\ [{| ta_dtype := uint8; ta_elems := nums [0; 7; 0; 0] |}] !! 0%nat
           = Some {| ta_dtype := uint8;
                     ta_elems := <[Z.to_nat (dataOffset raster_u8 [1]) := e]>
                                   (nums [0; 0; 0; 0]) |}
        /\ ta_get (deref [{| ta_dtype := uint8; ta_elems := nums [0; 7; 0; 0] |}] 0%nat)
             (dataOffset raster_u8 [1]) = e
        /\ get raster_u8 [{| ta_dtype := uint8; ta_elems := nums [0; 7; 0; 0] |}] [1]
           = Ok e)
  /\ (_dtype raster_u8 = Some uint8
      /\ exists e,
           get raster_u8 [{| ta_dtype := uint8; ta_elems := nums [0; 7; 0; 0] |}] [1]
           = Ok e)
  /\ (forall position v h'',
        set raster_u8_copy [zeros_u8; zeros_u8] position v = Ok h'' ->
        h'' !! 0%nat = Some zeros_u8).
Proof.
  split; [|split].
  - destruct (proj1 (construct_aliasing options_u8 [zeros_u8] [zeros_u8] 0%nat
                       zeros_u8 raster_u8 eq_refl eq_refl eq_refl)
                eq_refl
                (or_intror (ex_intro _ "uint8"%string (conj eq_refl eq_refl))))
      as (_ & _ & Hdt & Hset).
    split; [exact Hdt|].
    exact (Hset [1] (VNum (of_Z 7)) _ eq_refl).
  - destruct (proj1 (construct_aliasing options_u8_data_only [zeros_u8] [zeros_u8]
                       0%nat zeros_u8 raster_u8 eq_refl eq_refl eq_refl)
                eq_refl (or_introl eq_refl))
      as (_ & _ & Hdt & Hset).
    split; [exact Hdt|].
    destruct (Hset [1] (VNum (of_Z 7)) _ eq_refl) as (e & _ & _ & _ & Hget).
    exists e. exact Hget.
  - destruct (proj1 (proj2 (construct_aliasing options_u8_copy [zeros_u8]
                              [zeros_u8; zeros_u8] 0%nat zeros_u8 raster_u8_copy
                              eq_refl eq_refl eq_refl))
                (or_introl eq_refl))
      as (_ & _ & Hset).
    exact Hset.
Defined.

(** ** The dtype registry *)

(** C2, at uint16.  The registry entry of uint16 is [-32768, 32767], the
    range of int16, whereas a 16-bit unsigned element holds [0, 65535]. *)
Theorem registry_uint16 :
  DTYPE_TO_BOUND uint16 = {| b_min := of_Z (-32768); b_max := of_Z 32767 |}
  /\ bounds raster_u16 = Ok {| b_min := of_Z (-32768); b_max := of_Z 32767 |}
  /\ representable_range uint16 = (of_Z 0, of_Z 65535).
Proof. repeat apply conj; vm_compute; reflexivity. Qed.

(** The other entries written with the signed formula, and the upper bound
    of the 64-bit entries, which is 2^63 once rounded to a double. *)
Lemma registry_wide_unsigned :
  DTYPE_TO_BOUND uint32
  = {| b_min := of_Z (- 2 ^ 31); b_max := of_Z (2 ^ 31 - 1) |}
  /\ DTYPE_TO_BOUND uint64 = {| b_min := of_Z (- 2 ^ 63); b_max := of_Z (2 ^ 63) |}
  /\ DTYPE_TO_BOUND int64 = {| b_min := of_Z (- 2 ^ 63); b_max := of_Z (2 ^ 63) |}.
Proof. repeat split; vm_compute; reflexivity. Qed.

(** For the six other dtypes the registry entry is the representable
    range. *)
Lemma registry_exact (d : dtype) :
  d = uint8 \/ d = int8 \/ d = int16 \/ d = int32 \/ d = float32 \/ d = float64 ->
  (b_min (DTYPE_TO_BOUND d), b_max (DTYPE_TO_BOUND d)) = representable_range d.
Proof.
  intros [->|[->|[->|[->|[->| ->]]]]]; vm_compute; reflexivity.
Qed.

(** ** The position iterator *)

(** C8, at position [7, 0] in the box from [0, 0] to [2, 2].  The first
    component is outside the box, yet the function returns the successor
    [7, 1]: the bound test of an index only runs once the carry reaches
    that index. *)
Theorem getNextPosition_outside :
  getNextPosition [7; 0] [0; 0] [2; 2] = Some [7; 1].
Proof. vm_compute. reflexivity. Qed.

(** A position whose last component is outside the box has no successor. *)
Lemma getNextPosition_last_outside (position min max : list Z) (p mn mx : Z) :
  max !! length position = Some mx ->
  min !! length position = Some mn ->
  p < mn \/ mx <= p ->
  getNextPosition (position ++ [p]) min max = None.
Proof.
  intros Hmx Hmn Hp. unfold getNextPosition.
  rewrite length_app, Nat.add_1_r. simpl.
  rewrite lookup_app_r, Nat.sub_diag by lia. simpl.
  rewrite Hmx, Hmn. simpl.
  destruct Hp.
  - destruct (p <? mn) eqn:E; [reflexivity|lia].
  - destruct (mx <=? p) eqn:E; [rewrite orb_true_r; reflexivity|lia].
Qed.

(** ** Nested arrays *)

(** C9, at [[1, 2], [3], [4, 5, 6]].  The rows have different lengths, yet
    the array is accepted with shape [3, 2]: the lengths are only read along
    the first elements and the total count happens to agree.  The same
    holds with an empty row. *)
Theorem flattenNestedArray_ragged :
  flattenNestedArray ragged = Ok (nums [1; 2; 3; 4; 5; 6], [3; 2])
  /\ construct {| o_dtype := None; o_copy := false; o_shape := None;
                  o_data := Some (GenericData ragged) |} []
     = Ok ({| _data := 0%nat; _dtype := Some float64; _shape := [3; 2];
              _strides := [2; 1];
              _typeBound := Some (DTYPE_TO_BOUND float64) |},
           [{| ta_dtype := float64; ta_elems := nums [1; 2; 3; 4; 5; 6] |}])
  /\ flattenNestedArray ragged_empty = Ok (nums [1; 2; 3; 4; 5; 6], [3; 2]).
Proof. repeat apply conj; vm_compute; reflexivity. Qed.

(** The irregular example of the specification is rejected. *)
Example flattenNestedArray_irregular :
  flattenNestedArray [VArr (nums [1; 2]); VArr (nums [3])]
  = Err ErrSizeInconsistency.
Proof. vm_compute. reflexivity. Qed.

(** The regular example of the specification. *)
Example flattenNestedArray_regular :
  flattenNestedArray [VArr (nums [1; 2; 3]); VArr (nums [4; 5; 6])]
  = Ok (nums [1; 2; 3; 4; 5; 6], [2; 3]).
Proof. vm_compute. reflexivity. Qed.

(** ** Slicing *)

(** C3, on the float64 raster over [300, -5] sliced as uint8.  The elements
    written are 44 and 251, the values reduced modulo 256, and not 255 and
    0: the clamp of [slice] compares against [DTYPE_TO_BOUND.min] and
    [DTYPE_TO_BOUND.max], which are undefined. *)
Theorem slice_wraps :
  slice 3 raster_wide [wide_f64]
    {| s_min := Some [0]; s_max := Some [2]; s_dtype := Some "uint8"%string;
       s_strict := false |}
  = Some (Ok ({| _data := 1%nat; _dtype := Some uint8; _shape := [2];
                 _strides := [1];
                 _typeBound := Some (DTYPE_TO_BOUND uint8) |},
              [wide_f64; {| ta_dtype := uint8; ta_elems := nums [44; 251] |}])).
Proof. vm_compute. reflexivity. Qed.

(** The conversion of [copy] saturates the same elements. *)
Example copy_saturates :
  copy raster_wide [wide_f64] (Some "uint8"%string)
  = Ok ({| _data := 1%nat; _dtype := Some uint8; _shape := [2];
           _strides := [1]; _typeBound := Some (DTYPE_TO_BOUND uint8) |},
        [wide_f64; {| ta_dtype := uint8; ta_elems := nums [255; 0] |}]).
Proof. vm_compute. reflexivity. Qed.

(** The slice example of the specification. *)
Example slice_grid :
  slice 5 raster_grid [grid_f64]
    {| s_min := Some [1; 1]; s_max := Some [3; 3]; s_dtype := None;
       s_strict := false |}
  = Some (Ok ({| _data := 1%nat; _dtype := Some float64; _shape := [2; 2];
                 _strides := [2; 1];
                 _typeBound := Some (DTYPE_TO_BOUND float64) |},
              [grid_f64;
               {| ta_dtype := float64; ta_elems := nums [5; 6; 9; 10] |}])).
Proof. vm_compute. reflexivity. Qed.

(** C4, on the 4 x 4 raster with [min = [0, 3]], [max = [5, 3]] in strict
    mode.  [max[0] = 5] exceeds [shape[0] = 4], yet no error is raised and a
    raster of shape [5, 0] is returned: the test [max[i] > this._shape]
    compares with the whole shape, which is not a number when the raster
    has two dimensions or more. *)
Theorem slice_strict_accepts :
  slice 2 raster_grid [grid_f64]
    {| s_min := Some [0; 3]; s_max := Some [5; 3]; s_dtype := None;
       s_strict := true |}
  = Some (Ok ({| _data := 1%nat; _dtype := Some float64; _shape := [5; 0];
                 _strides := [0; 1];
                 _typeBound := Some (DTYPE_TO_BOUND float64) |},
              [grid_f64; {| ta_dtype := float64; ta_elems := [] |}])).
Proof. vm_compute. reflexivity. Qed.

(** With one dimension the same test does reject an upper boundary beyond
    the shape. *)
Example slice_strict_rejects_1d :
  slice 2 raster_wide [wide_f64]
    {| s_min := Some [0]; s_max := Some [3]; s_dtype := None;
       s_strict := true |}
  = Some (Err (ErrStrictBounds 0)).
Proof. vm_compute. reflexivity. Qed.

(** ** Integer conversion on write *)

(** C10, at uint16.  [set([0], -1.5)] passes the bounds of the registry
    ([-32768, 32767]) and the element read back is 65535, not the
    truncation -1; [set([0], 40000.5)], within the range of a 16-bit
    unsigned element, reads back as 32767, not 40000.  The conversion to
    uint16 of [copyDataAsType] does the same. *)
Theorem set_fraction_uint16 :
  (exists h', set raster_u16 [zeros_u16] [0] (VNum (Fin (- 3 # 2))) = Ok h'
              /\ get raster_u16 h' [0] = Ok (VNum (of_Z 65535)))
  /\ (exists h', set raster_u16 [zeros_u16] [0] (VNum (Fin (80001 # 2))) = Ok h'
                 /\ get raster_u16 h' [0] = Ok (VNum (of_Z 32767)))
  /\ Qtrunc (- 3 # 2) = -1
  /\ Qtrunc (80001 # 2) = 40000
  /\ copyDataAsType []
       (GenericData [VNum (Fin (- 3 # 2)); VNum (Fin (80001 # 2))]) uint16
     = Ok (0%nat, [{| ta_dtype := uint16; ta_elems := nums [65535; 32767] |}]).
Proof.
  repeat apply conj; try (vm_compute; reflexivity);
    eexists; (split; [vm_compute; reflexivity|]); vm_compute; reflexivity.
Qed.

(** ** Addressing: distinct positions, distinct elements *)

Lemma dataOffset_from_inj (shape p q : list Z) :
  Forall2 (fun p s => 0 <= p <= s - 1) p shape ->
  Forall2 (fun p s => 0 <= p <= s - 1) q shape ->
  dataOffset_from 0 p (compute_strides shape)
  = dataOffset_from 0 q (compute_strides shape) ->
  p = q.
Proof.
  intros Hp. revert q. induction Hp as [|p0 s ps ss Hp0 Hps IH]; intros q Hq.
  - inversion Hq. reflexivity.
  - inversion Hq as [|q0 s' qs ss' Hq0 Hqs]; subst.
    rewrite compute_strides_cons. simpl.
    rewrite (dataOffset_from_acc (0 + p0 * _)), (dataOffset_from_acc (0 + q0 * _)).
    pose proof (dataOffset_range _ _ Hps) as Rp.
    pose proof (dataOffset_range _ _ Hqs) as Rq.
    intros E.
    assert (p0 = q0) as -> by nia.
    f_equal. apply IH; [exact Hqs|lia].
Qed.

(** What a successful [a[i] = v] leaves in the array. *)
Lemma ta_set_elems (a a' : typedarray) (i : Z) (v : value) :
  ta_set a i v = Ok a' ->
  ta_dtype a' = ta_dtype a
  /\ exists e, ta_convert (ta_dtype a) v = Ok e
               /\ ta_elems a' = if (i <? 0) || (ta_length a <=? i) then ta_elems a
                                else <[Z.to_nat i := e]> (ta_elems a).
Proof.
  unfold ta_set. intros H. apply bind_ok in H as (e & He & H).
  destruct ((i <? 0) || (ta_length a <=? i)); injection H as <-;
    (split; [reflexivity|]); exists e; split; auto.
Qed.

(** [set] keeps the raster a raster of its dtype. *)
Lemma set_raster_of (d : dtype) (r : NdRaster) (h h' : heap)
    (position : list Z) (v : value) :
  raster_of d r h -> set r h position v = Ok h' -> raster_of d r h'.
Proof.
  intros [(a & Ha & Hd & Ht) Hdt Hs Hb] Hset.
  apply set_inv in Hset as (_ & _ & tb & a' & _ & Hta & ->).
  rewrite (deref_lookup _ _ _ Ha) in Hta.
  apply ta_set_inv in Hta as (Hd' & Hl' & _).
  split; try assumption.
  exists a'. split.
  - apply list_lookup_insert_eq. eapply lookup_lt_Some. exact Ha.
  - split; congruence.
Qed.

(** X1.  Two valid positions of a raster that have the same offset in the
    data are the same position. *)
Theorem dataOffset_injective (d : dtype) (r : NdRaster) (h : heap)
    (p q : list Z) :
  raster_of d r h ->
  valid_position r p -> valid_position r q ->
  dataOffset r p = dataOffset r q -> p = q.
Proof.
  intros Hr Hp Hq. unfold dataOffset. rewrite (ro_strides _ _ _ Hr).
  apply dataOffset_from_inj; assumption.
Qed.

Lemma dataOffset_injective_witness : [1; 2] = [1; 2].
Proof.
  apply (dataOffset_injective float64 raster_grid [grid_f64] [1; 2] [1; 2]).
  - split; try reflexivity. exists grid_f64. repeat split.
  - repeat constructor; lia.
  - repeat constructor; lia.
  - reflexivity.
Defined.

(** X2.  A successful [set] at a position changes no other element: [get]
    at any other valid position returns what it returned before, and the
    raster remains a raster of its dtype. *)
Theorem set_get_other (d : dtype) (r : NdRaster) (h h' : heap)
    (p q : list Z) (v : value) :
  raster_of d r h ->
  valid_position r q ->
  p <> q ->
  set r h p v = Ok h' ->
  get r h' q = get r h q /\ raster_of d r h'.
Proof.
  intros Hr Hq Hne Hset. split; [|eapply set_raster_of; eassumption].
  pose proof (set_inv _ _ _ _ _ Hset) as (_ & Hp & tb & a' & _ & Hta & ->).
  destruct (ro_data _ _ _ Hr) as (a & Ha & _ & Ht).
  rewrite (deref_lookup _ _ _ Ha) in Hta.
  apply ta_set_elems in Hta as (_ & e & _ & He).
  unfold get. destruct (_throwIfInvalidPosition r q); simpl; [|reflexivity].
  f_equal.
  rewrite deref_insert by (eapply lookup_lt_Some; exact Ha).
  rewrite (deref_lookup _ _ _ Ha).
  unfold ta_get. rewrite He.
  pose proof (dataOffset_range _ _ Hp) as Rp.
  pose proof (dataOffset_range _ _ Hq) as Rq.
  rewrite <- (ro_strides _ _ _ Hr) in Rp, Rq.
  fold (dataOffset r p) in Rp. fold (dataOffset r q) in Rq.
  destruct (dataOffset r q <? 0) eqn:E; [reflexivity|].
  destruct ((dataOffset r p <? 0) || (ta_length a <=? dataOffset r p)); [reflexivity|].
  rewrite list_lookup_insert_ne; [reflexivity|].
  intros Heq. apply Hne.
  apply (dataOffset_from_inj (_shape r)); try assumption.
  rewrite <- (ro_strides _ _ _ Hr). fold (dataOffset r p) (dataOffset r q). lia.
Qed.

Lemma set_get_other_witness :
  get raster_u8 [{| ta_dtype := uint8; ta_elems := nums [0; 7; 0; 0] |}] [2]
  = get raster_u8 [zeros_u8] [2]
  /\ raster_of uint8 raster_u8 [{| ta_dtype := uint8; ta_elems := nums [0; 7; 0; 0] |}].
Proof.
  apply (set_get_other uint8 raster_u8 [zeros_u8] _ [1] [2] (VNum (of_Z 7))).
  - exact raster_u8_of.
  - repeat constructor; lia.
  - discriminate.
  - vm_compute. reflexivity.
Defined.

(** ** Position validation *)

Lemma check_components_first (k i : nat) (position shape : list Z) :
  first_out_of_bound position shape i ->
  check_components k position shape = Err (ErrPositionOutOfBound (k + i)).
Proof.
  revert k i shape. induction position as [|p0 ps IH];
    intros k i [|s0 ss] [(p & s & Hp & Hs & Hbad) Hpre]; try discriminate.
  simpl. destruct i as [|i].
  - injection Hp as <-. injection Hs as <-.
    rewrite Nat.add_0_r.
    destruct (p0 <? 0) eqn:E1; [reflexivity|].
    destruct (s0 - 1 <? p0) eqn:E2; [reflexivity|lia].
  - pose proof (Hpre 0%nat p0 s0 ltac:(lia) eq_refl eq_refl) as H0.
    destruct (p0 <? 0) eqn:E1; [lia|]. destruct (s0 - 1 <? p0) eqn:E2; [lia|].
    simpl. replace (k + S i)%nat with (S k + i)%nat by lia.
    apply IH. split; [eauto|].
    intros j p' s' Hj. apply (Hpre (S j)). lia.
Qed.

Lemma check_components_err (k : nat) (position shape : list Z) (e : error) :
  check_components k position shape = Err e ->
  exists i, e = ErrPositionOutOfBound (k + i)
            /\ first_out_of_bound position shape i.
Proof.
  revert k shape. induction position as [|p0 ps IH]; intros k [|s0 ss]; simpl;
    try discriminate.
  destruct ((p0 <? 0) || (s0 - 1 <? p0)) eqn:E.
  - intros [= <-]. exists 0%nat. rewrite Nat.add_0_r. split; [reflexivity|].
    split; [|intros j p s Hj; lia].
    exists p0, s0. repeat split. apply orb_true_iff in E. lia.
  - intros H. apply IH in H as (i & -> & (p & s & Hp & Hs & Hbad) & Hpre).
    exists (S i). split; [f_equal; lia|]. split; [eauto|].
    apply orb_false_iff in E.
    intros [|j] p' s' Hj; simpl.
    + intros [= <-] [= <-]. lia.
    + apply Hpre. lia.
Qed.

(** X3.  [get] fails exactly on an invalid position: with the arity error
    when the position has not as many components as the shape, and otherwise
    on the first component below 0 or above [shape[i] - 1], whose index the
    error carries; [set] with a Number other than NaN raises the same
    error. *)
Theorem position_errors (r : NdRaster) (h : heap) (position : list Z) :
  (length position <> length (_shape r) ->
     get r h position = Err ErrPositionArity)
  /\ (forall i, length position = length (_shape r) ->
        first_out_of_bound position (_shape r) i ->
        get r h position = Err (ErrPositionOutOfBound i)
        /\ forall x, x <> NaN ->
             set r h position (VNum x) = Err (ErrPositionOutOfBound i))
  /\ (forall e, get r h position = Err e ->
        (e = ErrPositionArity /\ length position <> length (_shape r))
        \/ (length position = length (_shape r)
            /\ exists i, e = ErrPositionOutOfBound i
                         /\ first_out_of_bound position (_shape r) i)).
Proof.
  unfold get, set, _throwIfInvalidPosition. split; [|split].
  - intros Hne. apply Nat.eqb_neq in Hne. rewrite Hne. reflexivity.
  - intros i Hl Hi. rewrite Hl, Nat.eqb_refl. simpl.
    rewrite (check_components_first 0 i _ _ Hi). simpl. split; [reflexivity|].
    intros x Hx. destruct x; try contradiction; reflexivity.
  - intros e. destruct (Nat.eqb_spec (length position) (length (_shape r))) as [Hl|Hl]; simpl.
    + destruct (check_components 0 position (_shape r)) as [[]|e'] eqn:E; simpl;
        [discriminate|].
      intros [= <-]. right. split; [exact Hl|].
      apply check_components_err in E as (i & -> & Hi). eauto.
    + intros [= <-]. left. split; [reflexivity|exact Hl].
Qed.

Lemma position_errors_witness :
  get raster_grid [grid_f64] [1] = Err ErrPositionArity
  /\ (get raster_grid [grid_f64] [1; 4] = Err (ErrPositionOutOfBound 1)
      /\ forall x, x <> NaN ->
           set raster_grid [grid_f64] [1; 4] (VNum x) = Err (ErrPositionOutOfBound 1)).
Proof.
  split.
  - apply (proj1 (position_errors raster_grid [grid_f64] [1])). discriminate.
  - apply (proj1 (proj2 (position_errors raster_grid [grid_f64] [1; 4])) 1%nat).
    + reflexivity.
    + split.
      * exists 4, 4. repeat split. lia.
      * intros [|[|j]] p s Hj; [|lia|lia]. intros [= <-] [= <-]. lia.
Defined.

(** ** Construction from a shape alone *)

Lemma reduce_mul_total (shape : list Z) :
  shape <> [] -> reduce_mul shape = Ok (shape_total shape).
Proof.
  destruct shape as [|s rest]; [congruence|]. intros _.
  unfold reduce_mul, shape_total. simpl. do 2 f_equal. lia.
Qed.

Lemma construct_resolve_eq (o : options) (h : heap) :
  dtype_option_ok o ->
  (o_shape o <> None \/ o_data o <> None) ->
  construct o h
  = resolve (provided_dtype o) (o_copy o) (o_shape o) (o_data o) h.
Proof.
  unfold dtype_option_ok, isValidDtype, construct, provided_dtype.
  intros Hok Hsd.
  destruct (o_shape o), (o_data o); try (destruct Hsd; congruence);
    destruct (truthy_dtype (o_dtype o)); simpl in *; try reflexivity;
    destruct (dtype_of_string _); try discriminate; reflexivity.
Qed.

(** X4.  Construction from a shape without data: an empty shape is a
    TypeError, a shape of negative product a RangeError, and any other shape
    (non-positive entries included) gives a raster over a new zero-filled
    array of the requested kind (float64 by default) with as many elements
    as the product of the shape; the raster records no dtype and no bound
    record. *)
Theorem construct_shape_only (o : options) (h : heap) (shape : list Z) :
  dtype_option_ok o ->
  o_data o = None ->
  o_shape o = Some shape ->
  (shape = [] -> construct o h = Err TypeError)
  /\ (shape <> [] -> shape_total shape < 0 -> construct o h = Err RangeError)
  /\ (shape <> [] -> 0 <= shape_total shape ->
      construct o h
      = Ok ({| _data := length h; _dtype := None; _shape := shape;
               _strides := compute_strides shape; _typeBound := None |},
            h ++ [{| ta_dtype := default float64 (provided_dtype o);
                     ta_elems := replicate (Z.to_nat (shape_total shape))
                                   (ta_zero (default float64 (provided_dtype o))) |}])).
Proof.
  intros Hok Hd Hs.
  rewrite (construct_resolve_eq o h Hok) by (left; congruence).
  rewrite Hd, Hs. unfold resolve.
  change (default [] (Some shape)) with shape.
  split; [|split].
  - intros ->. reflexivity.
  - intros Hne Hneg. rewrite (reduce_mul_total _ Hne). simpl.
    unfold ta_new. destruct (shape_total shape <? 0) eqn:E; [reflexivity|lia].
  - intros Hne Hpos. rewrite (reduce_mul_total _ Hne). simpl.
    unfold ta_new. destruct (shape_total shape <? 0) eqn:E; [lia|]. simpl.
    unfold finish, set_shape. simpl.
    unfold deref. rewrite lookup_app_r, Nat.sub_diag by lia. simpl.
    unfold ta_length. simpl. rewrite length_replicate, Z2Nat.id by lia.
    rewrite Z.eqb_refl. reflexivity.
Qed.

Lemma construct_shape_only_witness :
  construct options_shape_only []
  = Ok (raster_shape_only,
        [{| ta_dtype := float64; ta_elems := nums [0; 0; 0; 0; 0; 0] |}])
  /\ construct {| o_dtype := None; o_copy := false; o_shape := Some [];
                  o_data := None |} [] = Err TypeError
  /\ construct {| o_dtype := None; o_copy := false; o_shape := Some [2; -3];
                  o_data := None |} [] = Err RangeError.
Proof.
  split; [|split].
  - apply (proj2 (proj2 (construct_shape_only options_shape_only [] [2; 3]
                           I eq_refl eq_refl))).
    + discriminate.
    + vm_compute. discriminate.
  - apply (proj1 (construct_shape_only
                    {| o_dtype := None; o_copy := false; o_shape := Some [];
                       o_data := None |} [] [] I eq_refl eq_refl)).
    reflexivity.
  - apply (proj1 (proj2 (construct_shape_only
                           {| o_dtype := None; o_copy := false;
                              o_shape := Some [2; -3]; o_data := None |}
                           [] [2; -3] I eq_refl eq_refl))).
    + discriminate.
    + reflexivity.
Defined.

Lemma set_bounded_number (b : bound) (x : number) :
  exists y, set_bounded b (VNum x) = VNum y.
Proof.
  unfold set_bounded. destruct (val_gt _ _); [eauto|].
  destruct (val_lt _ _); eauto.
Qed.

(** X5.  A raster constructed from a shape alone has no dtype: [get] at a
    valid position returns the zero element, but [set] of any Number at a
    valid position raises a TypeError (or the not-a-number error for NaN),
    [copy()] without a dtype raises the invalid-dtype error, and the
    [bounds] getter raises a TypeError. *)
Theorem shape_only_raster (o : options) (h h' : heap) (r : NdRaster)
    (position : list Z) :
  o_data o = None ->
  construct o h = Ok (r, h') ->
  valid_position r position ->
  _dtype r = None
  /\ get r h' position
     = Ok (ta_zero (default float64 (provided_dtype o)))
  /\ (forall x, x <> NaN -> set r h' position (VNum x) = Err TypeError)
  /\ set r h' position (VNum NaN) = Err ErrValueNotNumber
  /\ copy r h' None = Err ErrCopyDtype
  /\ bounds r = Err TypeError.
Proof.
  intros Hd H Hp.
  pose proof (construct_strides _ _ _ _ H) as [Hst Htot].
  pose proof (construct_resolve _ _ _ H) as Hres.
  rewrite Hd in Hres. unfold resolve in Hres.
  apply bind_ok in Hres as (n & _ & Hres).
  apply bind_ok in Hres as (a & Ha & Hres). unfold alloc in Hres.
  pose proof (finish_inv _ _ _ _ _ _ Hres) as (-> & Hl & Hdt & _ & Hb & _).
  simpl in Hb.
  assert (_throwIfInvalidPosition r position = Ok tt) as Hchk
    by (apply throwIfInvalidPosition_ok; exact Hp).
  split; [exact Hdt|]. split; [|split; [|split; [|split]]].
  - unfold get. rewrite Hchk. simpl. f_equal.
    pose proof (dataOffset_range _ _ Hp) as Hoff.
    rewrite <- Hst in Hoff. fold (dataOffset r position) in Hoff.
    rewrite Htot, Hl in Hoff.
    unfold deref in *. rewrite Hl, lookup_app_r, Nat.sub_diag in * by lia.
    simpl in *. unfold ta_new in Ha.
    destruct (n <? 0); [discriminate|]. injection Ha as <-.
    unfold ta_get, ta_length in *. simpl in *.
    destruct (dataOffset r position <? 0) eqn:E; [lia|].
    rewrite length_replicate in Hoff.
    rewrite lookup_replicate_2 by lia. reflexivity.
  - intros x Hx. unfold set. rewrite Hchk, Hb.
    destruct x; try contradiction; reflexivity.
  - reflexivity.
  - unfold copy. rewrite Hdt. reflexivity.
  - unfold bounds. rewrite Hb. reflexivity.
Qed.

Lemma shape_only_raster_witness :
  _dtype raster_shape_only = None
  /\ get raster_shape_only
       [{| ta_dtype := float64; ta_elems := nums [0; 0; 0; 0; 0; 0] |}] [1; 2]
     = Ok (ta_zero float64)
  /\ (forall x, x <> NaN ->
        set raster_shape_only
          [{| ta_dtype := float64; ta_elems := nums [0; 0; 0; 0; 0; 0] |}]
          [1; 2] (VNum x) = Err TypeError)
  /\ set raster_shape_only
       [{| ta_dtype := float64; ta_elems := nums [0; 0; 0; 0; 0; 0] |}]
       [1; 2] (VNum NaN) = Err ErrValueNotNumber
  /\ copy raster_shape_only
       [{| ta_dtype := float64; ta_elems := nums [0; 0; 0; 0; 0; 0] |}] None
     = Err ErrCopyDtype
  /\ bounds raster_shape_only = Err TypeError.
Proof.
  apply (shape_only_raster options_shape_only [] _ raster_shape_only [1; 2]).
  - reflexivity.
  - vm_compute. reflexivity.
  - repeat constructor; lia.
Defined.

(** ** The 64-bit kinds *)

(** X6.  On a uint64 or int64 raster [set] never stores a Number or a
    BigInt: a Number other than NaN at a valid position raises a TypeError
    (the BigInt array refuses it), and a BigInt raises a TypeError at the
    [isNaN] test, whatever the position. *)
Theorem set_bigint_kinds (d : dtype) (r : NdRaster) (h : heap)
    (position : list Z) :
  raster_of d r h ->
  d = uint64 \/ d = int64 ->
  (forall x, x <> NaN -> valid_position r position ->
     set r h position (VNum x) = Err TypeError)
  /\ (forall z, set r h position (VBig z) = Err TypeError).
Proof.
  intros Hr Hd. split.
  - intros x Hx Hp. unfold set.
    assert (isNaN (VNum x) = Ok false) as -> by (destruct x; try contradiction; reflexivity).
    simpl. apply throwIfInvalidPosition_ok in Hp. rewrite Hp. simpl.
    rewrite (ro_bound _ _ _ Hr).
    fold (set_bounded (DTYPE_TO_BOUND d) (VNum x)).
    destruct (set_bounded_number (DTYPE_TO_BOUND d) x) as [y ->].
    destruct (ro_data _ _ _ Hr) as (a & Ha & Hda & _).
    rewrite (deref_lookup _ _ _ Ha). unfold ta_set. rewrite Hda.
    destruct Hd as [-> | ->]; reflexivity.
  - intros z. reflexivity.
Qed.

Lemma set_bigint_kinds_witness :
  (forall x, x <> NaN -> valid_position raster_i64 [1] ->
     set raster_i64 [zeros_i64] [1] (VNum x) = Err TypeError)
  /\ (forall z, set raster_i64 [zeros_i64] [1] (VBig z) = Err TypeError).
Proof.
  apply (set_bigint_kinds int64 raster_i64 [zeros_i64] [1]).
  - split; try reflexivity. exists zeros_i64. repeat split.
  - right. reflexivity.
Defined.


(** ** Copy-conversion *)

(** The conversion loop writes the converted bounded elements one after the
    other from index [i] on. *)
Lemma copyDataAsType_loop_elems (b : bound) (src : list value) (i : nat)
    (a a' : typedarray) :
  length (ta_elems a) = (i + length src)%nat ->
  copyDataAsType_loop b src (Z.of_nat i) a = Ok a' ->
  exists es,
    Forall2 (fun x e => ta_convert (ta_dtype a) (copy_bounded b x) = Ok e) src es
    /\ ta_elems a' = take i (ta_elems a) ++ es.
Proof.
  revert i a. induction src as [|x src IH]; intros i a Hlen; simpl.
  - intros [= <-]. exists []. split; [constructor|].
    rewrite app_nil_r, take_ge by (simpl in Hlen; lia). reflexivity.
  - fold (copy_bounded b x). intros H. apply bind_ok in H as (a1 & Hset & H).
    apply ta_set_elems in Hset as (Hd1 & e & He & Hel).
    unfold ta_length in Hel. simpl in Hlen.
    destruct (Z.of_nat i <? 0) eqn:E1; [lia|].
    destruct (Z.of_nat (length (ta_elems a)) <=? Z.of_nat i) eqn:E2; [lia|].
    simpl in Hel. rewrite Nat2Z.id in Hel.
    replace (Z.of_nat i + 1) with (Z.of_nat (S i)) in H by lia.
    apply IH in H as (es & Hes & Hel').
    2:{ rewrite Hel, length_insert. lia. }
    exists (e :: es). split.
    + constructor; [exact He|]. rewrite Hd1 in Hes. exact Hes.
    + rewrite Hel', Hel.
      rewrite (take_S_r _ i e) by (apply list_lookup_insert_eq; lia).
      rewrite take_insert_ge by lia. rewrite <- app_assoc. reflexivity.
Qed.

Lemma copyDataAsType_loop_ok (b : bound) (d : dtype) (src es : list value)
    (i : nat) (a : typedarray) :
  ta_dtype a = d ->
  length (ta_elems a) = (i + length src)%nat ->
  Forall2 (fun x e => ta_convert d (copy_bounded b x) = Ok e) src es ->
  exists a', copyDataAsType_loop b src (Z.of_nat i) a = Ok a'.
Proof.
  intros Hd Hlen H. revert i a Hd Hlen.
  induction H as [|x e src es He _ IH]; intros i a Hd Hlen; simpl.
  - eauto.
  - fold (copy_bounded b x). unfold ta_set at 1. rewrite Hd, He. simpl.
    unfold ta_length. simpl in Hlen.
    destruct (Z.of_nat i <? 0) eqn:E1; [lia|].
    destruct (Z.of_nat (length (ta_elems a)) <=? Z.of_nat i) eqn:E2; [lia|].
    simpl. replace (Z.of_nat i + 1) with (Z.of_nat (S i)) by lia.
    apply IH; [reflexivity|]. simpl. rewrite length_insert. lia.
Qed.

(** What [copyDataAsType] returns, in full. *)
Lemma copyDataAsType_elems (h h' : heap) (arr : data_in) (t : dtype) (l : loc) :
  copyDataAsType h arr t = Ok (l, h') ->
  l = length h
  /\ exists a', h' = h ++ [a'] /\ ta_dtype a' = t
     /\ (guessDtype h (Some arr) = Some t -> ta_elems a' = elements h arr)
     /\ (guessDtype h (Some arr) <> Some t ->
         Forall2 (fun x e => ta_convert t (copy_bounded (DTYPE_TO_BOUND t) x) = Ok e)
           (elements h arr) (ta_elems a')).
Proof.
  unfold copyDataAsType.
  set (convert := bind (ta_new t _) _).
  assert (convert = Ok (l, h') ->
          l = length h
          /\ exists a', h' = h ++ [a'] /\ ta_dtype a' = t
             /\ Forall2 (fun x e => ta_convert t (copy_bounded (DTYPE_TO_BOUND t) x) = Ok e)
                  (elements h arr) (ta_elems a')) as Hc.
  { unfold convert. intros H.
    apply bind_ok in H as (a0 & E0 & H). apply bind_ok in H as (a1 & E1 & H).
    unfold alloc in H. injection H as <- <-. split; [reflexivity|].
    exists a1. split; [reflexivity|].
    unfold ta_new in E0. destruct (_ <? 0); [discriminate|]. injection E0 as <-.
    pose proof (copyDataAsType_loop_inv _ _ _ _ _ E1) as [Hd _].
    split; [exact Hd|].
    apply (copyDataAsType_loop_elems _ _ 0%nat) in E1 as (es & Hes & Hel).
    - simpl in Hel. rewrite Hel. exact Hes.
    - simpl. rewrite length_replicate. lia. }
  destruct arr as [l0|g].
  - destruct (guessDtype h (Some (TypedData l0))) as [g|] eqn:G.
    + case_bool_decide as Hg.
      * unfold alloc. intros [= <- <-]. split; [reflexivity|].
        eexists. split; [reflexivity|]. simpl.
        pose proof (guessDtype_inv _ _ _ G) as (l1 & a1 & [= <-] & Ha1 & <-).
        rewrite (deref_lookup _ _ _ Ha1).
        split; [exact Hg|]. split; [reflexivity|]. intros Hne. exfalso. apply Hne. f_equal. exact Hg.
      * intros H. apply Hc in H as (-> & a' & -> & Hd & Hel).
        split; [reflexivity|]. exists a'.
        split; [reflexivity|]. split; [exact Hd|].
        split; [intros [= E]; contradiction|intros _; exact Hel].
    + intros H. apply Hc in H as (-> & a' & -> & Hd & Hel).
      split; [reflexivity|]. exists a'.
      split; [reflexivity|]. split; [exact Hd|].
      split; [discriminate|intros _; exact Hel].
  - intros H. apply Hc in H as (-> & a' & -> & Hd & Hel).
    split; [reflexivity|]. exists a'.
    split; [reflexivity|]. split; [exact Hd|].
    split; [discriminate|intros _; exact Hel].
Qed.

(** X8.  [copyDataAsType] returns a new typed array of the target kind and
    leaves every existing array as it is.  From a typed array of the target
    kind the elements are the same; otherwise there are as many elements as
    in the source and each is the conversion, by the store of the target
    kind, of the source element clamped into the registry bounds of the
    target. *)
Theorem copyDataAsType_spec (h h' : heap) (arr : data_in) (t : dtype) (l : loc) :
  copyDataAsType h arr t = Ok (l, h') ->
  l = length h
  /\ (forall l0 a0, h !! l0 = Some a0 -> h' !! l0 = Some a0)
  /\ exists a', h' !! l = Some a' /\ ta_dtype a' = t
     /\ length (ta_elems a') = length (elements h arr)
     /\ (guessDtype h (Some arr) = Some t -> ta_elems a' = elements h arr)
     /\ (guessDtype h (Some arr) <> Some t ->
         Forall2 (fun x e => ta_convert t (copy_bounded (DTYPE_TO_BOUND t) x) = Ok e)
           (elements h arr) (ta_elems a')).
Proof.
  intros H. apply copyDataAsType_elems in H as (-> & a' & -> & Hd & Hsame & Hconv).
  split; [reflexivity|]. split.
  - intros l0 a0 H0. rewrite lookup_app_l by (eapply lookup_lt_Some; exact H0). exact H0.
  - exists a'. split; [rewrite lookup_app_r, Nat.sub_diag by lia; reflexivity|].
    split; [exact Hd|]. split; [|split; assumption].
    destruct (decide (guessDtype h (Some arr) = Some t)) as [E|E].
    + rewrite (Hsame E). reflexivity.
    + symmetry. eapply Forall2_length. apply Hconv. exact E.
Qed.

Lemma copyDataAsType_spec_witness :
  1%nat = length [wide_f64]
  /\ (forall l0 a0, [wide_f64] !! l0 = Some a0 ->
        [wide_f64; {| ta_dtype := uint8; ta_elems := nums [255; 0] |}] !! l0 = Some a0)
  /\ exists a', [wide_f64; {| ta_dtype := uint8; ta_elems := nums [255; 0] |}] !! 1%nat
                = Some a' /\ ta_dtype a' = uint8
     /\ length (ta_elems a') = length (elements [wide_f64] (TypedData 0%nat))
     /\ (guessDtype [wide_f64] (Some (TypedData 0%nat)) = Some uint8 ->
         ta_elems a' = elements [wide_f64] (TypedData 0%nat))
     /\ (guessDtype [wide_f64] (Some (TypedData 0%nat)) <> Some uint8 ->
         Forall2 (fun x e => ta_convert uint8 (copy_bounded (DTYPE_TO_BOUND uint8) x) = Ok e)
           (elements [wide_f64] (TypedData 0%nat)) (ta_elems a')).
Proof.
  apply (copyDataAsType_spec [wide_f64] _ (TypedData 0%nat) uint8 1%nat).
  vm_compute. reflexivity.
Defined.

(** *** Saturation *)

Lemma Qlt_bool_iff (x y : Q) : Qlt_bool x y = true <-> (x < y)%Q.
Proof.
  unfold Qlt_bool. rewrite negb_true_iff. split.
  - intros H. apply Qnot_le_lt. intros Hle. apply Qle_bool_iff in Hle. congruence.
  - intros H. destruct (Qle_bool y x) eqn:E; [|reflexivity].
    apply Qle_bool_iff in E. exfalso. apply (Qlt_not_le _ _ H E).
Qed.

Lemma num_lt_trans (a b c : number) :
  num_lt a b = true -> num_lt b c = true -> num_lt a c = true.
Proof.
  destruct a, b, c; simpl; try discriminate; try reflexivity.
  rewrite !Qlt_bool_iff. apply Qlt_trans.
Qed.

(** When the lower bound is not above the upper one, the two ways of
    clamping ([set] with two tests, [copyDataAsType] with [else if]) agree. *)
Lemma copy_bounded_set_bounded (b : bound) (x : value) :
  num_lt (b_max b) (b_min b) = false ->
  copy_bounded b x = set_bounded b x.
Proof.
  intros Hb. unfold copy_bounded, set_bounded, val_lt, val_gt, num_gt.
  destruct (num_lt (comparand x) (b_min b)) eqn:E1;
    destruct (num_lt (b_max b) (comparand x)) eqn:E2; try reflexivity.
  rewrite (num_lt_trans _ _ _ E2 E1) in Hb. discriminate.
Qed.

Lemma registry_ordered (d : dtype) :
  num_lt (b_max (DTYPE_TO_BOUND d)) (b_min (DTYPE_TO_BOUND d)) = false.
Proof. destruct d; vm_compute; reflexivity. Qed.

(** Copy-conversion of Numbers that the target kind stores exactly. *)
Lemma copyDataAsType_numbers (h : heap) (vs : list number) (t : dtype) :
  Forall (stored_exactly t) vs ->
  exists a',
    copyDataAsType h (GenericData (map VNum vs)) t = Ok (length h, h ++ [a'])
    /\ ta_dtype a' = t
    /\ Forall2 (fun v e => exists x, e = VNum x
                  /\ num_eqb x (saturate v (DTYPE_TO_BOUND t)) = true)
         vs (ta_elems a').
Proof.
  intros Hvs.
  assert (exists es,
             Forall2 (fun x e => ta_convert t (copy_bounded (DTYPE_TO_BOUND t) x) = Ok e)
               (map VNum vs) es
             /\ Forall2 (fun v e => exists x, e = VNum x
                           /\ num_eqb x (saturate v (DTYPE_TO_BOUND t)) = true) vs es)
    as (es & Hconv & Hsat).
  { induction Hvs as [|v vs Hv _ (es & H1 & H2)].
    - exists []. split; constructor.
    - destruct (convert_saturate t v Hv) as (x & Hx & Hs).
      exists (VNum x :: es). split; constructor; eauto.
      rewrite copy_bounded_set_bounded by apply registry_ordered. exact Hx. }
  destruct (copyDataAsType_loop_ok (DTYPE_TO_BOUND t) t (map VNum vs) es 0%nat
              {| ta_dtype := t;
                 ta_elems := replicate (length (map VNum vs)) (ta_zero t) |}
              eq_refl) as (a' & Ha'); [simpl; rewrite length_replicate; lia|exact Hconv|].
  assert (copyDataAsType h (GenericData (map VNum vs)) t
          = Ok (length h, h ++ [a'])) as Hcopy.
  { unfold copyDataAsType, elements, guessDtype, ta_new.
    destruct (Z.of_nat _ <? 0) eqn:E; [apply Z.ltb_lt in E; lia|].
    rewrite Nat2Z.id. simpl bind. change 0 with (Z.of_nat 0). rewrite Ha'.
    reflexivity. }
  exists a'. split; [exact Hcopy|].
  pose proof (copyDataAsType_loop_inv _ _ _ _ _ Ha') as [Hd _].
  split; [exact Hd|].
  apply (copyDataAsType_loop_elems _ _ 0%nat) in Ha' as (es' & Hes' & Hel).
  2:{ simpl. rewrite length_replicate. lia. }
  simpl in Hel, Hes'. rewrite Hel.
  assert (es' = es) as ->; [|exact Hsat].
  clear -Hconv Hes'. revert es' Hes'.
  induction Hconv as [|x e src es He _ IH]; intros es' Hes'; inversion Hes'; subst.
  - reflexivity.
  - f_equal; [congruence|]. apply IH. assumption.
Qed.

(** X9.  Copy-conversion of Numbers saturates: into uint8, int8, int16 or
    int32 from integers and infinities, into float64 from any Numbers but
    NaN, into float32 from single-precision Numbers, [copyDataAsType] of a
    generic Array succeeds and element [i] of the new array is source
    element [i] saturated into the bounds of the target. *)
Theorem copyDataAsType_saturates (h : heap) (vs : list number) (t : dtype) :
  Forall (stored_exactly t) vs ->
  exists a',
    copyDataAsType h (GenericData (map VNum vs)) t = Ok (length h, h ++ [a'])
    /\ ta_dtype a' = t
    /\ Forall2 (fun v e => exists x, e = VNum x
                  /\ num_eqb x (saturate v (DTYPE_TO_BOUND t)) = true)
         vs (ta_elems a').
Proof. apply copyDataAsType_numbers. Qed.

Lemma copyDataAsType_saturates_witness :
  exists a',
    copyDataAsType [] (GenericData (map VNum [of_Z 300; of_Z (-5); NegInf])) uint8
    = Ok (length ([] : list typedarray), [] ++ [a'])
    /\ ta_dtype a' = uint8
    /\ Forall2 (fun v e => exists x, e = VNum x
                  /\ num_eqb x (saturate v (DTYPE_TO_BOUND uint8)) = true)
         [of_Z 300; of_Z (-5); NegInf] (ta_elems a').
Proof.
  apply (copyDataAsType_saturates [] [of_Z 300; of_Z (-5); NegInf] uint8).
  repeat constructor.
Defined.

(** ** Construction from a typed array without a dtype option *)

(** X7.  Without a dtype option and with [copy] false the constructor keeps
    a typed array of any kind and records that kind as dtype (the default
    float64 plays no part); with [copy] true it converts into a new float64
    array of the same length, whatever the kind of the array. *)
Theorem construct_without_dtype (o : options) (h h' : heap) (l : loc)
    (a : typedarray) (r : NdRaster) :
  h !! l = Some a ->
  o_data o = Some (TypedData l) ->
  o_dtype o = None ->
  construct o h = Ok (r, h') ->
  (o_copy o = false ->
     _data r = l /\ h' = h /\ _dtype r = Some (ta_dtype a)
     /\ _typeBound r = Some (DTYPE_TO_BOUND (ta_dtype a)))
  /\ (o_copy o = true ->
        _data r = length h /\ _dtype r = Some float64
        /\ exists a', h' = h ++ [a'] /\ ta_dtype a' = float64
                      /\ length (ta_elems a') = length (ta_elems a)).
Proof.
  intros Ha Hd Hdt H. apply construct_resolve in H.
  assert (provided_dtype o = None) as Hprov
    by (unfold provided_dtype; rewrite Hdt; reflexivity).
  rewrite Hd, Hprov, (resolve_typed _ _ _ _ _ _ Ha) in H.
  rewrite (bool_decide_eq_false_2 (None <> None)) in H by congruence.
  rewrite andb_false_r, orb_false_l in H.
  split; intros Hc; rewrite Hc in H.
  - apply finish_inv in H as (-> & Hl & Hd' & _ & Hb & _).
    repeat split; assumption.
  - apply bind_ok in H as ([l' h1] & E & F).
    apply finish_inv in F as (-> & Hl & Hd' & _).
    pose proof (copyDataAsType_elems _ _ _ _ _ E) as (-> & a' & -> & Hk & Hsame & Hconv).
    split; [exact Hl|]. split; [exact Hd'|].
    exists a'. split; [reflexivity|]. split; [exact Hk|].
    simpl in Hsame, Hconv.
    destruct (decide (guessDtype h (Some (TypedData l)) = Some float64)) as [G|G].
    + rewrite (Hsame G). unfold elements. rewrite (deref_lookup _ _ _ Ha). reflexivity.
    + apply Hconv in G. apply Forall2_length in G. rewrite <- G.
      unfold elements. rewrite (deref_lookup _ _ _ Ha). reflexivity.
Qed.

Lemma construct_without_dtype_witness :
  (_data raster_u8 = 0%nat /\ [zeros_u8] = [zeros_u8]
   /\ _dtype raster_u8 = Some (ta_dtype zeros_u8)
   /\ _typeBound raster_u8 = Some (DTYPE_TO_BOUND (ta_dtype zeros_u8)))
  /\ (_data {| _data := 1%nat; _dtype := Some float64; _shape := [4];
               _strides := [1]; _typeBound := Some (DTYPE_TO_BOUND float64) |}
      = length [zeros_u8]
      /\ Some float64 = Some float64
      /\ exists a', [zeros_u8; {| ta_dtype := float64; ta_elems := nums [0; 0; 0; 0] |}]
                    = [zeros_u8] ++ [a'] /\ ta_dtype a' = float64
                    /\ length (ta_elems a') = length (ta_elems zeros_u8)).
Proof.
  split.
  - apply (proj1 (construct_without_dtype
                    {| o_dtype := None; o_copy := false; o_shape := None;
                       o_data := Some (TypedData 0%nat) |}
                    [zeros_u8] [zeros_u8] 0%nat zeros_u8 raster_u8
                    eq_refl eq_refl eq_refl eq_refl)).
    reflexivity.
  - apply (proj2 (construct_without_dtype
                    {| o_dtype := None; o_copy := true; o_shape := None;
                       o_data := Some (TypedData 0%nat) |}
                    [zeros_u8]
                    [zeros_u8; {| ta_dtype := float64; ta_elems := nums [0; 0; 0; 0] |}]
                    0%nat zeros_u8
                    {| _data := 1%nat; _dtype := Some float64; _shape := [4];
                       _strides := [1];
                       _typeBound := Some (DTYPE_TO_BOUND float64) |}
                    eq_refl eq_refl eq_refl eq_refl)).
    reflexivity.
Defined.

(** ** Copy *)

(** The constructor as [copy] and [slice] call it: on a new typed array,
    with a shape, without dtype and without copy. *)
Lemma construct_over (h : heap) (l : loc) (a : typedarray) (shape : list Z) :
  h !! l = Some a ->
  construct {| o_dtype := None; o_copy := false; o_shape := Some shape;
               o_data := Some (TypedData l) |} h
  = if shape_total shape =? ta_length a
    then Ok ({| _data := l; _dtype := Some (ta_dtype a); _shape := shape;
                _strides := compute_strides shape;
                _typeBound := Some (DTYPE_TO_BOUND (ta_dtype a)) |}, h)
    else Err ErrShapeMismatch.
Proof.
  intros Ha. rewrite construct_resolve_eq; [|exact I|left; discriminate].
  change (provided_dtype _) with (@None dtype). cbn [o_copy o_shape o_data].
  rewrite (resolve_typed _ _ _ _ _ _ Ha).
  rewrite (bool_decide_eq_false_2 (None <> None)) by congruence.
  rewrite andb_false_r. simpl.
  unfold finish, set_shape. simpl. rewrite (deref_lookup _ _ _ Ha).
  destruct (shape_total shape =? ta_length a); reflexivity.
Qed.

(** X10.  [copy] of a raster into a dtype gives a raster of that dtype with
    the same shape and strides over a new typed array, and leaves the
    existing arrays as they are.  Into its own dtype the elements are the
    same, so that [get] returns on the copy what it returns on the source;
    and a later [set] on the copy does not change what [get] returns on the
    source. *)
Theorem copy_spec (d t : dtype) (r r' : NdRaster) (h h' : heap) (s : option string) :
  raster_of d r h ->
  match s with Some s => dtype_of_string s = Some t | None => t = d end ->
  copy r h s = Ok (r', h') ->
  raster_of t r' h'
  /\ _shape r' = _shape r /\ _strides r' = _strides r
  /\ _data r' = length h
  /\ (forall l0 a0, h !! l0 = Some a0 -> h' !! l0 = Some a0)
  /\ (t = d -> forall position, get r' h' position = get r h position)
  /\ (forall position q v h'',
        set r' h' position v = Ok h'' -> get r h'' q = get r h q).
Proof.
  intros Hr Hs H. unfold copy in H.
  assert (match s with Some s0 => dtype_of_string s0 | None => _dtype r end = Some t) as Hdt.
  { destruct s; [exact Hs|]. rewrite (ro_dtype _ _ _ Hr). congruence. }
  rewrite Hdt in H. apply bind_ok in H as ([l1 h1] & Hcopy & H).
  destruct (ro_data _ _ _ Hr) as (a & Ha & Hda & Htot).
  assert (l1 = length h
          /\ exists a', h1 = h ++ [a'] /\ ta_dtype a' = t
                        /\ ta_length a' = ta_length a
                        /\ (t = d -> ta_elems a' = ta_elems a))
    as (-> & a' & -> & Hk & Hlen & Hsame).
  { rewrite (ro_dtype _ _ _ Hr) in Hcopy. case_bool_decide as Htd.
    - injection Htd as ->. unfold alloc in Hcopy. injection Hcopy as <- <-.
      split; [reflexivity|]. eexists. split; [reflexivity|].
      rewrite (deref_lookup _ _ _ Ha). simpl. auto.
    - apply copyDataAsType_elems in Hcopy as (-> & a' & -> & Hk & Hsame & Hconv).
      split; [reflexivity|]. exists a'. split; [reflexivity|]. split; [exact Hk|].
      rewrite (guessDtype_typed _ _ _ Ha), Hda in Hsame, Hconv.
      split; [|intros ->; contradiction].
      unfold ta_length. f_equal.
      assert (Some d <> Some t) as Hne by congruence.
      apply Hconv, Forall2_length in Hne. rewrite <- Hne.
      unfold elements. rewrite (deref_lookup _ _ _ Ha). reflexivity. }
  assert ((h ++ [a']) !! length h = Some a') as Ha'
    by (rewrite lookup_app_r, Nat.sub_diag by lia; reflexivity).
  rewrite (construct_over _ _ _ _ Ha') in H.
  rewrite Htot, Hlen, Z.eqb_refl in H. injection H as <- <-. simpl.
  assert (forall l0 a0, h !! l0 = Some a0 -> (h ++ [a']) !! l0 = Some a0) as Hframe.
  { intros l0 a0 H0. rewrite lookup_app_l by (eapply lookup_lt_Some; exact H0). exact H0. }
  split; [|split; [reflexivity|split; [symmetry; apply (ro_strides _ _ _ Hr)|
           split; [reflexivity|split; [exact Hframe|split]]]]].
  - split; simpl; try (rewrite Hk; reflexivity); [|reflexivity].
    exists a'. split; [exact Ha'|]. split; [exact Hk|]. congruence.
  - intros Htd position. unfold get, _throwIfInvalidPosition, dataOffset. simpl.
    rewrite (ro_strides _ _ _ Hr).
    destruct (negb _); [reflexivity|].
    destruct (check_components 0 position (_shape r)); [|reflexivity]. simpl.
    rewrite (deref_lookup _ _ _ Ha'), (deref_lookup _ _ _ Ha).
    unfold ta_get. rewrite (Hsame Htd). reflexivity.
  - intros position q v h'' Hset. unfold get.
    destruct (_throwIfInvalidPosition r q); [|reflexivity]. simpl.
    pose proof (lookup_lt_Some _ _ _ Ha) as Hlt.
    assert (h'' !! _data r = Some a) as Ha''.
    { rewrite (set_frame _ _ _ _ _ (_data r) Hset) by (simpl; lia).
      apply Hframe. exact Ha. }
    rewrite (deref_lookup _ _ _ Ha''), (deref_lookup _ _ _ Ha). reflexivity.
Qed.

Lemma copy_spec_witness :
  raster_of uint8
    {| _data := 1%nat; _dtype := Some uint8; _shape := [2]; _strides := [1];
       _typeBound := Some (DTYPE_TO_BOUND uint8) |}
    [wide_f64; {| ta_dtype := uint8; ta_elems := nums [255; 0] |}].
Proof.
  apply (copy_spec float64 uint8 raster_wide _ [wide_f64] _ (Some "uint8"%string)).
  - split; try reflexivity. exists wide_f64. repeat split.
  - reflexivity.
  - vm_compute. reflexivity.
Defined.

(** ** The position iterator inside its box *)

Lemma next_in_box_snoc (ps ms xs : list Z) (p m x : Z) :
  length ms = length ps -> length xs = length ps ->
  next_in_box (ps ++ [p]) (ms ++ [m]) (xs ++ [x])
  = if p + 1 <? x then Some (ps ++ [p + 1])
    else option_map (fun q => q ++ [m]) (next_in_box ps ms xs).
Proof.
  revert ms xs. induction ps as [|p0 ps IH]; intros [|m0 ms] [|x0 xs] Hm Hx;
    try discriminate.
  - simpl. destruct (p + 1 <? x); reflexivity.
  - simpl in *. rewrite IH by lia.
    destruct (p + 1 <? x); [reflexivity|].
    destruct (next_in_box ps ms xs); simpl; [reflexivity|].
    destruct (p0 + 1 <? x0); reflexivity.
Qed.

(** The loop of [getNextPosition], once the indices from [length ps] on have
    been reset to [min], computes the successor on the indices below. *)
Lemma getNextPosition_loop_spec (ps ms xs tp tm tx : list Z) :
  in_box ps ms xs ->
  getNextPosition_loop (length ps) (ps ++ tp) (ms ++ tm) (xs ++ tx) (ps ++ tm)
  = option_map (fun q => q ++ tm) (next_in_box ps ms xs).
Proof.
  revert ms xs tp tm tx. induction ps as [|p ps IH] using rev_ind;
    intros ms xs tp tm tx Hbox.
  - inversion Hbox. reflexivity.
  - apply Forall3_app_inv_l in Hbox as (ms' & m1 & xs' & x1 & -> & -> & Hbox & H1).
    inversion H1 as [|p' m x ? ? ? Hp Hnil]; subst. inversion Hnil; subst.
    pose proof (Forall3_length_lm _ _ _ _ Hbox) as Hlm.
    pose proof (Forall3_length_lr _ _ _ _ Hbox) as Hlx.
    rewrite next_in_box_snoc by lia.
    rewrite length_app, Nat.add_1_r. simpl.
    rewrite <- !app_assoc. simpl.
    rewrite (list_lookup_middle ps tp p (length ps) eq_refl).
    rewrite (list_lookup_middle ms' tm m (length ps)) by lia.
    rewrite (list_lookup_middle xs' tx x (length ps)) by lia.
    simpl.
    destruct (p <? m) eqn:E1; [lia|]. destruct (x <=? p) eqn:E2; [lia|]. simpl.
    destruct (Z.ltb_spec (p + 1) x) as [Hlt|Hge].
    + destruct (x <=? p + 1) eqn:E3; [lia|].
      rewrite insert_app_r_alt, Nat.sub_diag by lia. simpl.
      rewrite <- app_assoc. reflexivity.
    + destruct (x <=? p + 1) eqn:E3; [|lia].
      destruct (Nat.eqb_spec (length ps) 0) as [H0|H0].
      * destruct ps; [|discriminate]. inversion Hbox. reflexivity.
      * rewrite insert_app_r_alt, Nat.sub_diag by lia. simpl.
        rewrite (IH ms' xs' (p :: tp) (m :: tm) (x :: tx) Hbox).
        destruct (next_in_box ps ms' xs'); simpl; [|reflexivity].
        rewrite <- app_assoc. reflexivity.
Qed.

Lemma getNextPosition_next_in_box (position min max : list Z) :
  in_box position min max ->
  getNextPosition position min max = next_in_box position min max.
Proof.
  intros Hbox. unfold getNextPosition.
  pose proof (getNextPosition_loop_spec position min max [] [] [] Hbox) as H.
  rewrite !app_nil_r in H. rewrite H.
  destruct (next_in_box position min max); simpl; [|reflexivity].
  rewrite app_nil_r. reflexivity.
Qed.

(** The extents of a box that holds a position are positive, and the
    position relative to [min] is a valid position of the box shape. *)
Lemma in_box_relative (position min max : list Z) :
  in_box position min max ->
  Forall2 (fun p s => 0 <= p <= s - 1) (zip_with Z.sub position min)
    (box_shape min max).
Proof.
  induction 1 as [|p mn mx ps ms xs Hp _ IH]; simpl.
  - constructor.
  - constructor; [lia|exact IH].
Qed.

Lemma box_offset_cons (p mn mx : Z) (ps ms xs : list Z) :
  box_offset (p :: ps) (mn :: ms) (mx :: xs)
  = (p - mn) * shape_total (box_shape ms xs) + box_offset ps ms xs.
Proof.
  unfold box_offset. simpl. rewrite compute_strides_cons. simpl.
  rewrite dataOffset_from_acc. lia.
Qed.

Lemma box_offset_min (min max : list Z) :
  length max = length min -> box_offset min min max = 0.
Proof.
  revert max. induction min as [|mn ms IH]; intros [|mx xs] Hl; try discriminate.
  - reflexivity.
  - rewrite box_offset_cons, IH by (simpl in Hl; lia). lia.
Qed.

Lemma box_offset_range (position min max : list Z) :
  in_box position min max ->
  0 <= box_offset position min max < shape_total (box_shape min max).
Proof. intros H. apply dataOffset_range, in_box_relative, H. Qed.

Lemma next_in_box_spec (position min max : list Z) :
  in_box position min max ->
  match next_in_box position min max with
  | Some q => in_box q min max
              /\ box_offset q min max = box_offset position min max + 1
  | None => box_offset position min max = shape_total (box_shape min max) - 1
  end.
Proof.
  induction 1 as [|p mn mx ps ms xs Hp Hbox IH]; simpl.
  - reflexivity.
  - pose proof (Forall3_length_lm _ _ _ _ Hbox) as Hlm.
    pose proof (Forall3_length_lr _ _ _ _ Hbox) as Hlx.
    destruct (next_in_box ps ms xs) as [q|].
    + destruct IH as [Hq Hoff]. split; [constructor; assumption|].
      rewrite !box_offset_cons, Hoff. ring.
    + destruct (Z.ltb_spec (p + 1) mx) as [Hlt|Hge].
      * split.
        -- constructor; [lia|].
           eapply Forall3_impl with (Q := fun p mn mx => mn <= p < mx) in Hbox.
           ++ clear -Hbox. induction Hbox; constructor; [lia|assumption].
           ++ auto.
        -- rewrite !box_offset_cons, box_offset_min by lia. lia.
      * rewrite box_offset_cons.
        change (box_shape (mn :: ms) (mx :: xs)) with ((mx - mn) :: box_shape ms xs).
        rewrite shape_total_cons, IH.
        assert (p = mx - 1) as -> by lia. ring.
Qed.

(** The successor inside the box, and its rank. *)
Lemma getNextPosition_in_box (position min max : list Z) :
  in_box position min max ->
  match getNextPosition position min max with
  | Some q => in_box q min max
              /\ box_offset q min max = box_offset position min max + 1
  | None => box_offset position min max = shape_total (box_shape min max) - 1
  end.
Proof.
  intros H. rewrite (getNextPosition_next_in_box _ _ _ H).
  apply next_in_box_spec, H.
Qed.

(** X11.  Inside the box, [getNextPosition] is the row-major successor: the
    position returned is again inside the box and its rank is one more,
    and [null] is returned exactly at the last position of the box. *)
Theorem getNextPosition_enumerates (position min max : list Z) :
  in_box position min max ->
  match getNextPosition position min max with
  | Some q => in_box q min max
              /\ box_offset q min max = box_offset position min max + 1
  | None => box_offset position min max = shape_total (box_shape min max) - 1
  end.
Proof. apply getNextPosition_in_box. Qed.

Lemma getNextPosition_enumerates_witness :
  match getNextPosition [1; 2] [1; 1] [3; 3] with
  | Some q => in_box q [1; 1] [3; 3]
              /\ box_offset q [1; 1] [3; 3] = box_offset [1; 2] [1; 1] [3; 3] + 1
  | None => box_offset [1; 2] [1; 1] [3; 3] = shape_total (box_shape [1; 1] [3; 3]) - 1
  end.
Proof.
  apply (getNextPosition_enumerates [1; 2] [1; 1] [3; 3]).
  repeat constructor; lia.
Defined.

(** ** Slicing a box that lies inside the raster *)

Lemma zip_with_sub_inj (p q min : list Z) :
  length p = length min -> length q = length min ->
  zip_with Z.sub p min = zip_with Z.sub q min -> p = q.
Proof.
  revert q min. induction p as [|p0 p IH]; intros [|q0 q] [|m0 ms] Hp Hq H;
    try discriminate; [reflexivity|].
  simpl in *. injection H as H0 H. f_equal; [lia|].
  apply (IH q ms); [lia|lia|exact H].
Qed.

Lemma box_offset_inj (p q min max : list Z) :
  in_box p min max -> in_box q min max ->
  box_offset p min max = box_offset q min max -> p = q.
Proof.
  intros Hp Hq H.
  apply (zip_with_sub_inj p q min).
  - apply (Forall3_length_lm _ _ _ _ Hp).
  - apply (Forall3_length_lm _ _ _ _ Hq).
  - apply (dataOffset_from_inj (box_shape min max)); try apply in_box_relative; assumption.
Qed.

Lemma in_box_valid (r : NdRaster) (q min max : list Z) :
  box_inside min max (_shape r) -> in_box q min max -> valid_position r q.
Proof.
  unfold valid_position, box_inside, in_box. generalize (_shape r). intros shape Hin Hq.
  revert shape Hin. induction Hq as [|p mn mx ps ms xs Hp _ IH]; intros shape Hin;
    inversion Hin; subst; constructor; [lia|]. apply IH. assumption.
Qed.

Lemma get_valid (r : NdRaster) (h : heap) (q : list Z) :
  valid_position r q ->
  get r h q = Ok (ta_get (deref h (_data r)) (dataOffset r q)).
Proof.
  intros Hq. unfold get.
  rewrite (proj2 (throwIfInvalidPosition_ok r q) Hq). reflexivity.
Qed.

Lemma num_lt_nan (x : number) : num_lt x NaN = false /\ num_lt NaN x = false.
Proof. destruct x; split; reflexivity. Qed.

(** The clamp of [slice] never changes the value read. *)
Lemma slice_loop_step (fuel : nat) (r : NdRaster) (h : heap)
    (min max pos : list Z) (k : Z) (buffer : typedarray) :
  slice_loop (S fuel) r h min max pos k buffer
  = match get r h pos with
    | Err e => Some (Err e)
    | Ok value =>
        match ta_set buffer k value with
        | Err e => Some (Err e)
        | Ok buffer' =>
            match getNextPosition pos min max with
            | None => Some (Ok buffer')
            | Some next => slice_loop fuel r h min max next (k + 1) buffer'
            end
        end
    end.
Proof.
  simpl. destruct (get r h pos) as [value|]; [|reflexivity].
  unfold val_lt, val_gt, num_gt.
  change (comparand DTYPE_TO_BOUND_min) with NaN.
  change (comparand DTYPE_TO_BOUND_max) with NaN.
  rewrite (proj1 (num_lt_nan _)). reflexivity.
Qed.

(** The loop of [slice] from a position of the box on: it ends within
    [volume - rank] iterations; if it ends without error, the buffer holds
    below the rank of the position what it held, and from there on the
    conversion of the element read at the position of each rank. *)
Lemma slice_loop_spec (r : NdRaster) (h : heap) (min max : list Z) (t : dtype)
    (fuel : nat) (pos : list Z) (buffer : typedarray) :
  let volume := shape_total (box_shape min max) in
  box_inside min max (_shape r) ->
  in_box pos min max ->
  ta_dtype buffer = t ->
  ta_length buffer = volume ->
  (Z.to_nat (volume - box_offset pos min max) <= fuel)%nat ->
  exists res,
    slice_loop fuel r h min max pos (box_offset pos min max) buffer = Some res
    /\ (forall buffer', res = Ok buffer' ->
          ta_dtype buffer' = t /\ ta_length buffer' = volume
          /\ (forall j, (j < Z.to_nat (box_offset pos min max))%nat ->
                ta_elems buffer' !! j = ta_elems buffer !! j)
          /\ (forall q, in_box q min max ->
                box_offset pos min max <= box_offset q min max ->
                exists v e, get r h q = Ok v /\ ta_convert t v = Ok e
                  /\ ta_elems buffer' !! Z.to_nat (box_offset q min max) = Some e))
    /\ (convertible r h min max t -> exists buffer', res = Ok buffer').
Proof.
  intros volume Hinside. revert pos buffer.
  induction fuel as [|fuel IH]; intros pos buffer Hpos Hd Hlen Hfuel.
  - pose proof (box_offset_range _ _ _ Hpos). fold volume in H. lia.
  - pose proof (box_offset_range _ _ _ Hpos) as Hrange. fold volume in Hrange.
    rewrite slice_loop_step.
    rewrite (get_valid r h pos (in_box_valid _ _ _ _ Hinside Hpos)).
    set (v := ta_get (deref h (_data r)) (dataOffset r pos)).
    assert (get r h pos = Ok v) as Hget
      by apply (get_valid r h pos (in_box_valid _ _ _ _ Hinside Hpos)).
    destruct (ta_set buffer (box_offset pos min max) v) as [buffer1|e1] eqn:Hset.
    2:{ eexists. split; [reflexivity|]. split; [discriminate|].
        intros Hconv. destruct (Hconv pos v Hpos Hget) as [e He].
        unfold ta_set in Hset. rewrite Hd, He in Hset. simpl in Hset.
        destruct (_ || _); discriminate. }
    pose proof (ta_set_elems _ _ _ _ Hset) as (Hd1 & e & He & Hel).
    rewrite Hd in He. rewrite Hlen in Hel.
    destruct (box_offset pos min max <? 0) eqn:E1; [lia|].
    destruct (volume <=? box_offset pos min max) eqn:E2; [lia|]. simpl in Hel.
    assert (ta_length buffer1 = volume) as Hlen1.
    { unfold ta_length in *. rewrite Hel, length_insert. exact Hlen. }
    assert (Z.to_nat (box_offset pos min max) < length (ta_elems buffer))%nat as Hlt
      by (unfold ta_length in Hlen; lia).
    pose proof (getNextPosition_in_box pos min max Hpos) as Hnext.
    destruct (getNextPosition pos min max) as [next|].
    + destruct Hnext as [Hnbox Hnoff]. rewrite <- Hnoff.
      destruct (IH next buffer1 Hnbox ltac:(congruence) Hlen1 ltac:(lia))
        as (res & Hres & Hok & Hconv).
      exists res. split; [exact Hres|]. split; [|exact Hconv].
      intros buffer' ->. destruct (Hok buffer' eq_refl) as (Hd' & Hlen' & Hlow & Hhigh).
      split; [exact Hd'|]. split; [exact Hlen'|]. split.
      * intros j Hj. rewrite Hlow by lia. rewrite Hel.
        apply list_lookup_insert_ne. lia.
      * intros q Hq Hle.
        destruct (Z.eq_dec (box_offset q min max) (box_offset pos min max)) as [Heq|Hneq].
        -- assert (q = pos) as -> by (apply (box_offset_inj q pos min max); assumption).
           exists v, e. split; [exact Hget|]. split; [exact He|].
           rewrite Hlow by lia. rewrite Hel. apply list_lookup_insert_eq. exact Hlt.
        -- apply Hhigh; [exact Hq|lia].
    + eexists. split; [reflexivity|]. split; [|eauto].
      intros buffer' [= <-]. split; [congruence|]. split; [exact Hlen1|]. split.
      * intros j Hj. rewrite Hel. apply list_lookup_insert_ne. lia.
      * intros q Hq Hle.
        pose proof (box_offset_range _ _ _ Hq) as Hqr. fold volume in Hqr.
        assert (q = pos) as ->
          by (apply (box_offset_inj q pos min max); try assumption; lia).
        exists v, e. split; [exact Hget|]. split; [exact He|].
        rewrite Hel. apply list_lookup_insert_eq. exact Hlt.
Qed.

Lemma Qlt_bool_inject (a b : Z) : Qlt_bool (inject_Z a) (inject_Z b) = (a <? b).
Proof.
  apply Bool.eq_iff_eq_true. rewrite Qlt_bool_iff, Z.ltb_lt, <- Zlt_Qlt. reflexivity.
Qed.

(** [max[i] > this._shape] on a raster of one dimension compares with the
    only entry; with two dimensions or more it is false. *)
Lemma shape_comparand_gt (mx : Z) (shape : list Z) :
  num_gt (of_Z mx) (shape_comparand shape)
  = match shape with
    | [] => 0 <? mx
    | [s] => s <? mx
    | _ => false
    end.
Proof.
  destruct shape as [|s [|s' shape]]; unfold num_gt, shape_comparand; simpl.
  - apply Qlt_bool_inject.
  - apply Qlt_bool_inject.
  - reflexivity.
Qed.

Lemma strict_check_inside (i : nat) (min max shape whole : list Z) :
  box_inside min max shape ->
  (forall mx, mx ∈ max -> num_gt (of_Z mx) (shape_comparand whole) = false) ->
  strict_check i min max shape whole = Ok tt.
Proof.
  intros H. revert i. induction H as [|mn mx s ms xs ss Hb _ IH]; intros i Hgt; simpl.
  - reflexivity.
  - rewrite (Hgt mx) by apply list_elem_of_here.
    destruct (mn <? 0) eqn:E1; [lia|]. destruct (s - 1 <? mn) eqn:E2; [lia|].
    destruct (mx <? 1) eqn:E3; [lia|]. simpl.
    apply IH. intros mx' Hin. apply Hgt. apply list_elem_of_further. exact Hin.
Qed.

Lemma box_inside_whole (min max shape : list Z) (mx : Z) :
  box_inside min max shape -> mx ∈ max ->
  num_gt (of_Z mx) (shape_comparand shape) = false.
Proof.
  intros H Hin. rewrite shape_comparand_gt.
  destruct shape as [|s [|s' shape]]; try reflexivity.
  - inversion H; subst. inversion Hin.
  - inversion H as [|mn mx0 s0 ms xs ss Hb Hrest]; subst. inversion Hrest; subst.
    apply list_elem_of_singleton in Hin as ->. apply Z.ltb_ge. lia.
Qed.

Lemma box_inside_clamp (min max shape : list Z) :
  box_inside min max shape ->
  map (fun el => Z.max el 0) min = min
  /\ zip_with (fun el s => Z.min el s) max shape = max.
Proof.
  induction 1 as [|mn mx s ms xs ss Hb _ [IH1 IH2]]; simpl.
  - split; reflexivity.
  - rewrite IH1, IH2. split; f_equal; lia.
Qed.

Lemma box_inside_min (min max shape : list Z) :
  box_inside min max shape -> in_box min min max.
Proof. induction 1; constructor; [lia|assumption]. Qed.

(** A valid position of the slice, moved by [min], is a position of the
    box, and its rank in the box is its offset in the slice. *)
Lemma in_box_shift (min max q : list Z) :
  Forall2 (fun p s => 0 <= p <= s - 1) q (box_shape min max) ->
  length max = length min ->
  in_box (zip_with Z.add min q) min max
  /\ zip_with Z.sub (zip_with Z.add min q) min = q.
Proof.
  revert max q. induction min as [|mn ms IH]; intros [|mx xs] q Hq Hl;
    try discriminate; simpl in *.
  - inversion Hq. split; [constructor|reflexivity].
  - inversion Hq as [|p s ps ss Hp Hps]; subst. simpl.
    destruct (IH xs ps Hps ltac:(lia)) as [H1 H2].
    split; [constructor; [lia|exact H1]|]. rewrite H2. f_equal. lia.
Qed.

(** [slice] on a non-empty box inside the raster. *)
Lemma slice_box (d t : dtype) (r : NdRaster) (h : heap) (min max : list Z)
    (s : option string) (strict : bool) (fuel : nat) :
  raster_of d r h ->
  box_inside min max (_shape r) ->
  match s with Some s => dtype_of_string s = Some t | None => t = d end ->
  (Z.to_nat (shape_total (box_shape min max)) <= fuel)%nat ->
  exists res,
    slice fuel r h {| s_min := Some min; s_max := Some max; s_dtype := s;
                      s_strict := strict |} = Some res
    /\ (forall r' h', res = Ok (r', h') ->
          raster_of t r' h'
          /\ _shape r' = box_shape min max
          /\ _data r' = length h
          /\ (forall l0 a0, h !! l0 = Some a0 -> h' !! l0 = Some a0)
          /\ forall q, valid_position r' q ->
               exists v e, get r h (zip_with Z.add min q) = Ok v
                           /\ ta_convert t v = Ok e
                           /\ get r' h' q = Ok e)
    /\ (_shape r <> [] -> convertible r h min max t ->
        exists r' h', res = Ok (r', h')).
Proof.
  intros Hr Hin Hs Hfuel. unfold slice. cbn [s_min s_max s_dtype s_strict default from_option id].
  assert (match s with Some s0 => dtype_of_string s0 | None => _dtype r end = Some t) as ->.
  { destruct s; [exact Hs|]. rewrite (ro_dtype _ _ _ Hr). congruence. }
  pose proof (Forall3_length_lr _ _ _ _ Hin) as Hl1.
  pose proof (Forall3_length_lm _ _ _ _ Hin) as Hl2.
  rewrite <- Hl1, <- Hl2, !Nat.eqb_refl. simpl negb. simpl orb. cbv iota.
  assert ((if strict
           then do _ <- strict_check 0 min max (_shape r) (_shape r) ; Ok (min, max)
           else Ok (map (fun el => Z.max el 0) min,
                    zip_with (fun el s => Z.min el s) max (_shape r)))
          = Ok (min, max)) as ->.
  { destruct strict.
    - rewrite (strict_check_inside 0 _ _ _ _ Hin); [reflexivity|].
      intros mx. apply (box_inside_whole _ _ _ _ Hin).
    - destruct (box_inside_clamp _ _ _ Hin) as [-> ->]. reflexivity. }
  fold (box_shape min max).
  destruct (box_shape min max) as [|e0 es] eqn:Hshape.
  { (* a raster without dimension *)
    eexists. split; [reflexivity|]. split; [discriminate|].
    intros Hne _. exfalso. apply Hne.
    destruct Hin; [reflexivity|discriminate]. }
  rewrite <- Hshape in *. rewrite reduce_mul_total by (rewrite Hshape; discriminate).
  simpl bind.
  pose proof (box_offset_range _ _ _ (box_inside_min _ _ _ Hin)) as Hvol.
  rewrite box_offset_min in Hvol by lia.
  unfold ta_new. destruct (shape_total (box_shape min max) <? 0) eqn:E; [lia|].
  set (buffer := {| ta_dtype := t; ta_elems := _ |}).
  destruct (slice_loop_spec r h min max t fuel min buffer Hin
              (box_inside_min _ _ _ Hin) eq_refl)
    as (res & Hres & Hok & Hconv).
  { unfold ta_length, buffer. simpl. rewrite length_replicate. lia. }
  { rewrite box_offset_min by lia. lia. }
  rewrite box_offset_min in Hres, Hok by lia. rewrite Hres.
  destruct res as [buffer'|e].
  2:{ eexists. split; [reflexivity|]. split; [discriminate|].
      intros _ Hc. destruct (Hconv Hc) as (? & ?). discriminate. }
  destruct (Hok buffer' eq_refl) as (Hd' & Hlen' & _ & Hhigh).
  unfold alloc.
  assert ((h ++ [buffer']) !! length h = Some buffer') as Hb'
    by (rewrite lookup_app_r, Nat.sub_diag by lia; reflexivity).
  rewrite (construct_over _ _ _ _ Hb'), Hlen', Z.eqb_refl.
  eexists. split; [reflexivity|]. split; [|eauto].
  intros r' h' [= <- <-]. simpl.
  split; [|split; [reflexivity|split; [reflexivity|split]]].
  - split; simpl; try (rewrite Hd'; reflexivity); [|reflexivity].
    exists buffer'. split; [exact Hb'|]. split; [exact Hd'|]. symmetry. exact Hlen'.
  - intros l0 a0 H0. rewrite lookup_app_l by (eapply lookup_lt_Some; exact H0). exact H0.
  - intros q Hq. unfold valid_position in Hq. simpl in Hq.
    destruct (in_box_shift min max q Hq ltac:(lia)) as [Hbox Hrel].
    destruct (Hhigh _ Hbox) as (v & e & Hget & He & Hel).
    { apply box_offset_range. exact Hbox. }
    exists v, e. split; [exact Hget|]. split; [exact He|].
    rewrite get_valid by exact Hq. f_equal. cbn [_data].
    rewrite (deref_lookup _ _ _ Hb'). unfold dataOffset. cbn [_strides].
    unfold box_offset in Hel. rewrite Hrel in Hel.
    pose proof (dataOffset_range _ _ Hq) as Hoff.
    unfold ta_get. rewrite Hel.
    destruct (dataOffset_from 0 q _ <? 0) eqn:E0; [lia|]. reflexivity.
Qed.

(** X12.  [slice] with explicit boundaries of a non-empty box inside the
    raster, in strict mode or not: with as much fuel as the box has
    positions the loop ends; a result without error is a raster of the
    target dtype over a new array, of shape [max - min], and [get] on it at
    a valid position [q] returns the typed-array conversion (not the
    saturation) of what [get] returns on the source at [min + q]; the
    existing arrays are left as they are.  When the raster has a dimension
    and every element read can be stored in the target kind, there is no
    error. *)
Theorem slice_spec (d t : dtype) (r : NdRaster) (h : heap) (min max : list Z)
    (s : option string) (strict : bool) (fuel : nat) :
  raster_of d r h ->
  box_inside min max (_shape r) ->
  match s with Some s => dtype_of_string s = Some t | None => t = d end ->
  (Z.to_nat (shape_total (box_shape min max)) <= fuel)%nat ->
  exists res,
    slice fuel r h {| s_min := Some min; s_max := Some max; s_dtype := s;
                      s_strict := strict |} = Some res
    /\ (forall r' h', res = Ok (r', h') ->
          raster_of t r' h'
          /\ _shape r' = box_shape min max
          /\ _data r' = length h
          /\ (forall l0 a0, h !! l0 = Some a0 -> h' !! l0 = Some a0)
          /\ forall q, valid_position r' q ->
               exists v e, get r h (zip_with Z.add min q) = Ok v
                           /\ ta_convert t v = Ok e
                           /\ get r' h' q = Ok e)
    /\ (_shape r <> [] -> convertible r h min max t ->
        exists r' h', res = Ok (r', h')).
Proof. apply slice_box. Qed.

Lemma slice_spec_witness :
  exists res,
    slice 4 raster_grid [grid_f64]
      {| s_min := Some [1; 1]; s_max := Some [3; 3]; s_dtype := None;
         s_strict := true |} = Some res
    /\ (forall r' h', res = Ok (r', h') ->
          raster_of float64 r' h'
          /\ _shape r' = box_shape [1; 1] [3; 3]
          /\ _data r' = length [grid_f64]
          /\ (forall l0 a0, [grid_f64] !! l0 = Some a0 -> h' !! l0 = Some a0)
          /\ forall q, valid_position r' q ->
               exists v e, get raster_grid [grid_f64] (zip_with Z.add [1; 1] q) = Ok v
                           /\ ta_convert float64 v = Ok e
                           /\ get r' h' q = Ok e)
    /\ (_shape raster_grid <> [] -> convertible raster_grid [grid_f64] [1; 1] [3; 3] float64 ->
        exists r' h', res = Ok (r', h')).
Proof.
  apply (slice_spec float64 float64 raster_grid [grid_f64] [1; 1] [3; 3] None true 4).
  - split; try reflexivity. exists grid_f64. repeat split.
  - repeat constructor; lia.
  - reflexivity.
  - vm_compute. lia.
Defined.

(** ** Nested arrays *)

(** Induction on values, through the elements of Arrays. *)
Lemma value_ind_nested (P : value -> Prop) :
  P VUndef -> (forall x, P (VNum x)) -> (forall z, P (VBig z)) ->
  (forall l, Forall P l -> P (VArr l)) ->
  forall v, P v.
Proof.
  intros Hu Hn Hb Ha. fix IH 1. intros [| x | z | l].
  - exact Hu.
  - apply Hn.
  - apply Hb.
  - apply Ha. induction l as [|v l IHl]; constructor; [apply IH|exact IHl].
Qed.

Lemma getNestedArrayShape_dig_regular (shape : list Z) (v : value) (acc : list Z) :
  regular shape v -> getNestedArrayShape_dig v acc = Ok (acc ++ shape).
Proof.
  revert v acc. induction shape as [|n shape IH]; intros v acc Hv.
  - rewrite app_nil_r. destruct v; simpl in *; try reflexivity. contradiction.
  - destruct v as [| | |l]; simpl in Hv; try contradiction.
    destruct Hv as (Hlen & Hpos & Hall).
    destruct l as [|first rest]; [simpl in Hlen; lia|].
    simpl. inversion Hall as [|? ? Hfirst _]; subst.
    rewrite (IH first _ Hfirst), <- app_assoc. reflexivity.
Qed.

Lemma flat_regular (shape : list Z) (d : nat) (l : list value) :
  Forall (regular shape) l -> (length shape <= d)%nat ->
  flat (S d) l = flat_map leaves l.
Proof.
  revert d l. induction shape as [|n shape IH]; intros d l Hall Hd; simpl.
  - induction Hall as [|v l Hv _ IHl]; simpl; [reflexivity|].
    rewrite <- IHl. destruct v; simpl in *; try reflexivity. contradiction.
  - destruct d as [|d]; [simpl in Hd; lia|].
    induction Hall as [|v l Hv _ IHl]; [reflexivity|].
    cbn [flat_map]. rewrite <- IHl. f_equal.
    destruct v as [| | |l']; simpl in Hv; try contradiction.
    destruct Hv as (_ & _ & Hall').
    simpl leaves. apply IH; [exact Hall'|simpl in Hd; lia].
Qed.

Lemma length_flat_map_const {A B} (f : A -> list B) (l : list A) (n : nat) :
  Forall (fun x => length (f x) = n) l ->
  length (flat_map f l) = (length l * n)%nat.
Proof.
  induction 1 as [|x l Hx _ IH]; simpl; [reflexivity|].
  rewrite length_app, Hx, IH. reflexivity.
Qed.

Lemma leaves_length (shape : list Z) (v : value) :
  regular shape v -> Z.of_nat (length (leaves v)) = shape_total shape.
Proof.
  revert v. induction shape as [|n shape IH]; intros v Hv.
  - destruct v; simpl in *; try reflexivity. contradiction.
  - destruct v as [| | |l]; simpl in Hv; try contradiction.
    destruct Hv as (Hlen & Hpos & Hall). rewrite shape_total_cons. simpl leaves.
    rewrite (length_flat_map_const leaves l (Z.to_nat (shape_total shape))).
    + assert (0 <= shape_total shape) as Hnn.
      { destruct l as [|v l']; [simpl in Hlen; lia|].
        inversion Hall as [|? ? Hv' _]; subst. rewrite <- (IH v Hv'). lia. }
      lia.
    + eapply Forall_impl; [exact Hall|]. intros v Hv'. simpl.
      rewrite <- (IH v Hv'). lia.
Qed.

Lemma bind_Ok {A B} (a : A) (k : A -> result B) : bind (Ok a) k = k a.
Proof. reflexivity. Qed.

(** Shape and flat array of a regular nested array. *)
Lemma flattenNestedArray_of_regular (n : Z) (shape : list Z) (l : list value) :
  regular (n :: shape) (VArr l) ->
  flattenNestedArray l = Ok (leaves (VArr l), n :: shape).
Proof.
  intros Hreg. unfold flattenNestedArray, getNestedArrayShape.
  rewrite (getNestedArrayShape_dig_regular _ _ [] Hreg), bind_Ok.
  change ([] ++ n :: shape) with (n :: shape).
  rewrite reduce_mul_total, bind_Ok by discriminate.
  pose proof (leaves_length _ _ Hreg) as Hlen.
  destruct Hreg as (_ & _ & Hall).
  change (length (n :: shape)) with (S (length shape)).
  rewrite (flat_regular shape (length shape) l Hall) by lia.
  simpl leaves in Hlen. rewrite Hlen, Z.eqb_refl. reflexivity.
Qed.

(** X13.  A regular nested array is accepted: the shape inferred is the
    list of the lengths at each level and the flat array is the row-major
    sequence of its leaves. *)
Theorem flattenNestedArray_regular_spec (n : Z) (shape : list Z) (l : list value) :
  regular (n :: shape) (VArr l) ->
  flattenNestedArray l = Ok (leaves (VArr l), n :: shape).
Proof. apply flattenNestedArray_of_regular. Qed.

Lemma flattenNestedArray_regular_spec_witness :
  flattenNestedArray nested_2x3 = Ok (leaves (VArr nested_2x3), [2; 3]).
Proof.
  apply (flattenNestedArray_regular_spec 2 [3] nested_2x3).
  simpl. repeat split; try lia. repeat constructor; simpl; repeat split; try lia;
    repeat constructor.
Defined.

Lemma getNestedArrayShape_dig_inv (v : value) :
  forall acc shape,
    getNestedArrayShape_dig v acc = Ok shape ->
    exists s, shape = acc ++ s /\ Forall (fun n => 0 < n) s
              /\ (forall l, v = VArr l -> exists s', s = Z.of_nat (length l) :: s').
Proof.
  induction v as [| x | z | l IH] using value_ind_nested; intros acc shape; simpl;
    try (intros [= <-]; exists []; rewrite app_nil_r;
         split; [reflexivity|split; [constructor|discriminate]]).
  destruct l as [|first rest]; [discriminate|].
  inversion IH as [|? ? IHfirst _]; subst. intros H.
  apply IHfirst in H as (s & -> & Hpos & _).
  exists (Z.of_nat (length (first :: rest)) :: s). split; [|split].
  - rewrite <- app_assoc. reflexivity.
  - constructor; [simpl; lia|exact Hpos].
  - intros l' [= <-]. eauto.
Qed.

Lemma getNestedArrayShape_dig_err (v : value) :
  forall acc e, getNestedArrayShape_dig v acc = Err e -> e = ErrEmptyArray.
Proof.
  induction v as [| x | z | l IH] using value_ind_nested; intros acc e; simpl;
    try discriminate.
  destruct l as [|first rest]; [intros [= <-]; reflexivity|].
  inversion IH as [|? ? IHfirst _]; subst. apply IHfirst.
Qed.

(** X14.  Whatever the nested array, a result of [flattenNestedArray] has a
    non-empty shape of positive entries that starts with the length of the
    array, and the product of the shape is the length of the flat array;
    the only errors are the empty-array error and the size-inconsistency
    error, and an empty array always raises the former. *)
Theorem flattenNestedArray_result (arr : list value) :
  (forall array shape, flattenNestedArray arr = Ok (array, shape) ->
     (exists s, shape = Z.of_nat (length arr) :: s)
     /\ Forall (fun n => 0 < n) shape
     /\ shape_total shape = Z.of_nat (length array)
     /\ array = flat (length shape) arr)
  /\ (forall e, flattenNestedArray arr = Err e ->
        e = ErrEmptyArray \/ e = ErrSizeInconsistency)
  /\ (arr = [] -> flattenNestedArray arr = Err ErrEmptyArray).
Proof.
  unfold flattenNestedArray, getNestedArrayShape. split; [|split].
  - intros array shape H. apply bind_ok in H as (sh & Hdig & H).
    apply getNestedArrayShape_dig_inv in Hdig as (s & -> & Hpos & Hhd).
    destruct (Hhd arr eq_refl) as (s' & ->).
    change ([] ++ Z.of_nat (length arr) :: s') with (Z.of_nat (length arr) :: s') in *.
    rewrite reduce_mul_total, bind_Ok in H by discriminate.
    destruct (Z.eqb_spec (shape_total (Z.of_nat (length arr) :: s'))
                (Z.of_nat (length (flat (length (Z.of_nat (length arr) :: s')) arr))))
      as [Heq|Hne]; simpl in H; [|discriminate].
    injection H as <- <-. split; [eauto|]. split; [exact Hpos|].
    split; [exact Heq|reflexivity].
  - intros e H. destruct (getNestedArrayShape_dig (VArr arr) []) as [sh|e'] eqn:Hdig.
    + rewrite bind_Ok in H. right.
      apply getNestedArrayShape_dig_inv in Hdig as (s & -> & _ & Hhd).
      destruct (Hhd arr eq_refl) as (s' & ->).
      change ([] ++ Z.of_nat (length arr) :: s') with (Z.of_nat (length arr) :: s') in *.
      rewrite reduce_mul_total, bind_Ok in H by discriminate.
      destruct (negb _); [congruence|discriminate].
    + simpl in H. injection H as <-. left.
      apply (getNestedArrayShape_dig_err _ _ _ Hdig).
  - intros ->. reflexivity.
Qed.

Lemma flattenNestedArray_result_witness :
  ((exists s, [3; 2] = Z.of_nat (length ragged) :: s)
   /\ Forall (fun n => 0 < n) [3; 2]
   /\ shape_total [3; 2] = Z.of_nat (length (nums [1; 2; 3; 4; 5; 6]))
   /\ nums [1; 2; 3; 4; 5; 6] = flat (length [3; 2]) ragged)
  /\ flattenNestedArray [] = Err ErrEmptyArray.
Proof.
  split.
  - apply (proj1 (flattenNestedArray_result ragged)). vm_compute. reflexivity.
  - apply (proj2 (proj2 (flattenNestedArray_result []))). reflexivity.
Defined.

(** ** The strict-mode validation of [slice] *)

Lemma strict_check_iff (i : nat) (min max shape whole : list Z) :
  length max = length min -> length shape = length min ->
  strict_check i min max shape whole = Ok tt <->
  Forall3 (fun mn mx s => 0 <= mn <= s - 1 /\ 1 <= mx
                          /\ num_gt (of_Z mx) (shape_comparand whole) = false)
    min max shape.
Proof.
  revert i max shape. induction min as [|mn ms IH]; intros i [|mx xs] [|s ss] Hx Hs;
    try discriminate; simpl.
  - split; [constructor|reflexivity].
  - simpl in Hx, Hs.
    destruct (num_gt (of_Z mx) (shape_comparand whole)) eqn:G.
    + rewrite !orb_true_r. split; [discriminate|].
      intros H. inversion H as [|? ? ? ? ? ? (_ & _ & G') _]; subst. congruence.
    + rewrite orb_false_r.
      destruct (Z.ltb_spec mn 0); simpl.
      { split; [discriminate|]. intros H'. inversion H'; subst. lia. }
      destruct (Z.ltb_spec (s - 1) mn); simpl.
      { split; [discriminate|]. intros H'. inversion H'; subst. lia. }
      destruct (Z.ltb_spec mx 1); simpl.
      { split; [discriminate|]. intros H'. inversion H'; subst. lia. }
      rewrite IH by lia. split.
      * intros H'. constructor; [repeat split; try lia; exact G|exact H'].
      * intros H'. inversion H'; subst. assumption.
Qed.

(** X15.  What strict mode checks: every lower boundary within
    [0, shape[i] - 1] and every upper boundary at least 1; an upper boundary
    beyond the shape is refused only on a raster of one dimension. *)
Theorem strict_check_spec (min max shape : list Z) :
  length max = length min -> length shape = length min ->
  strict_check 0 min max shape shape = Ok tt <->
  Forall3 (fun mn mx s => 0 <= mn <= s - 1 /\ 1 <= mx) min max shape
  /\ (forall mx s, max = [mx] -> shape = [s] -> mx <= s).
Proof.
  intros Hx Hs. rewrite strict_check_iff by assumption. split.
  - intros H. split.
    + eapply Forall3_impl; [exact H|]. intros mn mx s (H1 & H2 & _). auto.
    + intros mx s -> ->. inversion H as [|? ? ? ? ? ? (_ & _ & G)]; subst.
      rewrite shape_comparand_gt in G. apply Z.ltb_ge in G. exact G.
  - intros [H Hone].
    assert (forall mx, mx ∈ max -> num_gt (of_Z mx) (shape_comparand shape) = false)
      as Hgt.
    { intros mx Hin. rewrite shape_comparand_gt.
      destruct shape as [|s [|s' shape']]; try reflexivity.
      - inversion H; subst. inversion Hin.
      - inversion H as [|? mx0 ? ? ? ? _ Hrest]; subst. inversion Hrest; subst.
        apply list_elem_of_singleton in Hin as ->.
        apply Z.ltb_ge. apply Hone; reflexivity. }
    clear Hone Hx Hs. revert Hgt. generalize (shape_comparand shape). intros c.
    induction H as [|mn mx s ms xs ss (H1 & H2) _ IH]; intros Hgt.
    + constructor.
    + constructor.
      * repeat split; try lia. apply Hgt. apply list_elem_of_here.
      * apply IH. intros mx' Hin. apply Hgt. apply list_elem_of_further. exact Hin.
Qed.

Lemma strict_check_spec_witness :
  strict_check 0 [0; 3] [5; 3] [4; 4] [4; 4] = Ok tt.
Proof.
  apply (proj2 (strict_check_spec [0; 3] [5; 3] [4; 4] eq_refl eq_refl)).
  split.
  - repeat constructor; lia.
  - discriminate.
Defined.

(** ** Reshaping *)

(** X16.  An accepted shape assignment leaves the data where it is: the
    raster remains a raster of its dtype over the same heap, and positions
    of the old and of the new shape that have the same offset read the same
    element. *)
Theorem set_shape_keeps_data (d : dtype) (r r' : NdRaster) (h : heap)
    (shape : list Z) :
  raster_of d r h ->
  set_shape r h shape = Ok r' ->
  raster_of d r' h
  /\ _data r' = _data r
  /\ forall p q, valid_position r p -> valid_position r' q ->
       dataOffset r p = dataOffset r' q -> get r' h q = get r h p.
Proof.
  intros Hr H. apply set_shape_inv in H as [Ht ->].
  destruct (ro_data _ _ _ Hr) as (a & Ha & Hd & _).
  split; [|split; [reflexivity|]].
  - split; simpl; try apply Hr; [|reflexivity].
    exists a. split; [exact Ha|]. split; [exact Hd|].
    rewrite Ht, (deref_lookup _ _ _ Ha). reflexivity.
  - intros p q Hp Hq Hoff. rewrite !get_valid by assumption.
    simpl. rewrite Hoff. reflexivity.
Qed.

Lemma set_shape_keeps_data_witness :
  raster_of uint8
    {| _data := 0%nat; _dtype := Some uint8; _shape := [2; 2];
       _strides := [2; 1]; _typeBound := Some (DTYPE_TO_BOUND uint8) |}
    [zeros_u8].
Proof.
  apply (set_shape_keeps_data uint8 raster_u8 _ [zeros_u8] [2; 2]).
  - exact raster_u8_of.
  - reflexivity.
Defined.

(** ** What construction establishes *)

(** X17.  A successful construction changes no existing typed array, and a
    raster constructed from data is over a typed array of the kind its
    dtype names, with the registry entry of that dtype as bound record,
    strides derived from its shape and as many elements as the shape
    announces. *)
Theorem construct_establishes (o : options) (h h' : heap) (r : NdRaster) :
  construct o h = Ok (r, h') ->
  (forall l0 a0, h !! l0 = Some a0 -> h' !! l0 = Some a0)
  /\ (o_data o <> None -> exists d, raster_of d r h').
Proof.
  intros H. split.
  - pose proof (construct_inv _ _ _ _ H) as (l & d & sh & _ & Ho & _).
    destruct Ho as [a -> _ _|a -> _ _ _ _]; [|auto].
    intros l0 a0 H0. rewrite lookup_app_l by (eapply lookup_lt_Some; exact H0). exact H0.
  - intros Hd. eapply construct_raster_of; eassumption.
Qed.

Lemma construct_establishes_witness :
  (forall l0 a0, [zeros_u8] !! l0 = Some a0 -> [zeros_u8; zeros_u8] !! l0 = Some a0)
  /\ (o_data options_u8_copy <> None ->
      exists d, raster_of d raster_u8_copy [zeros_u8; zeros_u8]).
Proof.
  apply (construct_establishes options_u8_copy [zeros_u8]). reflexivity.
Defined.

(** ** Construction from a regular nested array of Numbers *)

(** X18.  From a regular nested array whose leaves are Numbers that the
    requested kind stores exactly, and without a shape option, the
    constructor gives a raster of the requested dtype (float64 without a
    dtype option) whose shape is the shape of the nesting and whose data
    are the leaves in row-major order, each saturated into the bounds of
    the dtype. *)
Theorem construct_nested (o : options) (h : heap) (n : Z) (shape : list Z)
    (l : list value) (vs : list number) (t : dtype) :
  regular (n :: shape) (VArr l) ->
  leaves (VArr l) = map VNum vs ->
  Forall (stored_exactly t) vs ->
  o_data o = Some (GenericData l) ->
  o_shape o = None ->
  default float64 (provided_dtype o) = t ->
  dtype_option_ok o ->
  exists a',
    construct o h
    = Ok ({| _data := length h; _dtype := Some t; _shape := n :: shape;
             _strides := compute_strides (n :: shape);
             _typeBound := Some (DTYPE_TO_BOUND t) |}, h ++ [a'])
    /\ ta_dtype a' = t
    /\ Forall2 (fun v e => exists x, e = VNum x
                  /\ num_eqb x (saturate v (DTYPE_TO_BOUND t)) = true)
         vs (ta_elems a').
Proof.
  intros Hreg Hleaves Hvs Hd Hs Ht Hok.
  rewrite (construct_resolve_eq o h Hok) by (right; congruence).
  rewrite Hd, Hs. unfold resolve. cbn [isGenericArray orb].
  rewrite (flattenNestedArray_of_regular _ _ _ Hreg), bind_Ok, Hleaves, Ht.
  destruct (copyDataAsType_numbers h vs t Hvs) as (a' & Hcopy & Hk & Hsat).
  rewrite Hcopy, bind_Ok. exists a'. split; [|split; assumption].
  unfold finish, set_shape. cbn [_data bind].
  unfold deref. rewrite lookup_app_r, Nat.sub_diag by lia. cbn [lookup list_lookup default from_option id].
  pose proof (leaves_length _ _ Hreg) as Hlen. rewrite Hleaves in Hlen.
  rewrite length_map in Hlen.
  apply Forall2_length in Hsat. unfold ta_length. rewrite <- Hsat, Hlen.
  rewrite Z.eqb_refl. reflexivity.
Qed.

Lemma construct_nested_witness :
  exists a',
    construct options_nested_u8 []
    = Ok ({| _data := length ([] : list typedarray); _dtype := Some uint8;
             _shape := [2; 3]; _strides := compute_strides [2; 3];
             _typeBound := Some (DTYPE_TO_BOUND uint8) |}, [] ++ [a'])
    /\ ta_dtype a' = uint8
    /\ Forall2 (fun v e => exists x, e = VNum x
                  /\ num_eqb x (saturate v (DTYPE_TO_BOUND uint8)) = true)
         [of_Z 1; of_Z 2; of_Z 300; of_Z (-3); of_Z 4; of_Z 5] (ta_elems a').
Proof.
  apply (construct_nested options_nested_u8 [] 2 [3]
           [VArr (nums [1; 2; 300]); VArr (nums [-3; 4; 5])]
           [of_Z 1; of_Z 2; of_Z 300; of_Z (-3); of_Z 4; of_Z 5] uint8).
  - simpl. repeat split; try lia.
    repeat constructor; simpl; repeat split; try lia; repeat constructor.
  - reflexivity.
  - repeat constructor.
  - reflexivity.
  - reflexivity.
  - reflexivity.
  - reflexivity.
Defined.

(** ** Truncation on write *)

Lemma Qtrunc_between (lo hi : Z) (q : Q) :
  (inject_Z lo <= q)%Q -> (q <= inject_Z hi)%Q -> lo <= Qtrunc q <= hi.
Proof.
  intros Hlo Hhi. unfold Qtrunc. destruct (Qle_bool 0 q) eqn:E.
  - split.
    + rewrite <- (Qfloor_Z lo). apply Qfloor_resp_le. exact Hlo.
    + rewrite Zle_Qle. eapply Qle_trans; [apply Qfloor_le|exact Hhi].
  - split.
    + rewrite Zle_Qle. eapply Qle_trans; [exact Hlo|apply Qle_ceiling].
    + rewrite <- (Qceiling_Z hi). apply Qceiling_resp_le. exact Hhi.
Qed.

(** With finite bounds [lo <= hi] on which the modular reduction is the
    identity, the value written for a Number other than NaN is the Number
    saturated, and the element stored is its integer part, within the
    bounds. *)
Lemma int_store_general (sg : bool) (w lo hi : Z) (v : number) :
  (forall z, lo <= z <= hi -> wrap sg w z = z) ->
  lo <= hi ->
  v <> NaN ->
  let b := {| b_min := of_Z lo; b_max := of_Z hi |} in
  set_bounded b (VNum v) = VNum (saturate v b)
  /\ to_int sg w (saturate v b) = num_trunc (saturate v b)
  /\ lo <= num_trunc (saturate v b) <= hi.
Proof.
  intros Hw Hlh Hv b.
  unfold set_bounded, saturate, val_lt, val_gt, num_gt. simpl.
  destruct v as [| | |q]; simpl; try contradiction.
  - rewrite Qtrunc_inject, Hw by lia. repeat split; lia.
  - rewrite Qtrunc_inject, Hw by lia. repeat split; lia.
  - unfold Qlt_bool.
    destruct (Qle_bool (inject_Z lo) q) eqn:E1; destruct (Qle_bool q (inject_Z hi)) eqn:E2;
      simpl.
    + assert (lo <= Qtrunc q <= hi) as Hb
        by (apply Qtrunc_between; apply Qle_bool_iff; assumption).
      rewrite Hw by exact Hb. repeat split; lia.
    + rewrite Qtrunc_inject, Hw by lia. repeat split; lia.
    + rewrite Qtrunc_inject, Hw by lia. repeat split; lia.
    + exfalso.
      assert (~ (inject_Z lo <= q)%Q) as N1
        by (intros H; apply Qle_bool_iff in H; congruence).
      assert (~ (q <= inject_Z hi)%Q) as N2
        by (intros H; apply Qle_bool_iff in H; congruence).
      apply Qnot_le_lt in N1, N2.
      assert (inject_Z hi < inject_Z lo)%Q as H by (eapply Qlt_trans; eassumption).
      rewrite <- Zlt_Qlt in H. lia.
Qed.

Lemma int_kind_store (d : dtype) (sg : bool) (w lo hi : Z) (v : number) :
  DTYPE_TO_BOUND d = {| b_min := of_Z lo; b_max := of_Z hi |} ->
  (forall x, ta_convert d (VNum x) = Ok (VNum (of_Z (to_int sg w x)))) ->
  (forall z, lo <= z <= hi -> wrap sg w z = z) ->
  lo <= hi ->
  v <> NaN ->
  let z := num_trunc (saturate v (DTYPE_TO_BOUND d)) in
  ta_convert d (set_bounded (DTYPE_TO_BOUND d) (VNum v)) = Ok (VNum (of_Z z))
  /\ num_lt (of_Z z) (b_min (DTYPE_TO_BOUND d)) = false
  /\ num_gt (of_Z z) (b_max (DTYPE_TO_BOUND d)) = false.
Proof.
  intros Hb Hc Hw Hlh Hv z. subst z. rewrite Hb.
  destruct (int_store_general sg w lo hi v Hw Hlh Hv) as (-> & Ht & Hr1 & Hr2).
  rewrite Hc, Ht. cbn [b_min b_max].
  set (y := num_trunc _) in *.
  unfold num_gt, of_Z, num_lt. rewrite !Qlt_bool_inject.
  split; [reflexivity|]. split; apply Z.ltb_ge; lia.
Qed.

(** X19.  On a raster of dtype uint8, int8, int16 or int32, [set] of any
    Number but NaN at a valid position succeeds, and [get] then returns the
    integer part (truncation toward zero) of the Number saturated into the
    bounds; the element stored is never outside the bounds (no
    wrap-around). *)
Theorem set_get_trunc_saturate (d : dtype) (r : NdRaster) (h : heap)
    (position : list Z) (v : number) :
  raster_of d r h ->
  d = uint8 \/ d = int8 \/ d = int16 \/ d = int32 ->
  valid_position r position ->
  v <> NaN ->
  let z := num_trunc (saturate v (DTYPE_TO_BOUND d)) in
  exists h',
    set r h position (VNum v) = Ok h'
    /\ get r h' position = Ok (VNum (of_Z z))
    /\ num_lt (of_Z z) (b_min (DTYPE_TO_BOUND d)) = false
    /\ num_gt (of_Z z) (b_max (DTYPE_TO_BOUND d)) = false.
Proof.
  intros Hr Hd Hp Hv z.
  destruct (ro_data _ _ _ Hr) as (a & Ha & _).
  assert (ta_convert d (set_bounded (DTYPE_TO_BOUND d) (VNum v)) = Ok (VNum (of_Z z))
          /\ num_lt (of_Z z) (b_min (DTYPE_TO_BOUND d)) = false
          /\ num_gt (of_Z z) (b_max (DTYPE_TO_BOUND d)) = false)
    as (Hconv & Hlo & Hhi).
  { subst z. destruct Hd as [->|[->|[->| ->]]].
    - apply (int_kind_store uint8 false 8 0 255); try reflexivity; try lia; [|exact Hv].
      intros z Hz. apply wrap_unsigned_small. lia.
    - apply (int_kind_store int8 true 8 (-128) 127); try reflexivity; try lia; [|exact Hv].
      intros z Hz. apply wrap_signed_small; lia.
    - apply (int_kind_store int16 true 16 (-32768) 32767); try reflexivity; try lia;
        [|exact Hv].
      intros z Hz. apply wrap_signed_small; lia.
    - apply (int_kind_store int32 true 32 (-2147483648) 2147483647);
        try reflexivity; try lia; [|exact Hv].
      intros z Hz. apply wrap_signed_small; lia. }
  assert (isNaN (VNum v) = Ok false) as Hnan
    by (destruct v; try contradiction; reflexivity).
  destruct (set_get d r h position (VNum v) _ a Hr Ha Hp Hnan Hconv)
    as (_ & Hset & Hget).
  eexists. split; [exact Hset|]. split; [exact Hget|]. split; assumption.
Qed.

Lemma set_get_trunc_saturate_witness :
  exists h',
    set raster_u8 [zeros_u8] [3] (VNum (Fin (7 # 2))) = Ok h'
    /\ get raster_u8 h' [3]
       = Ok (VNum (of_Z (num_trunc (saturate (Fin (7 # 2)) (DTYPE_TO_BOUND uint8)))))
    /\ num_lt (of_Z (num_trunc (saturate (Fin (7 # 2)) (DTYPE_TO_BOUND uint8))))
         (b_min (DTYPE_TO_BOUND uint8)) = false
    /\ num_gt (of_Z (num_trunc (saturate (Fin (7 # 2)) (DTYPE_TO_BOUND uint8))))
         (b_max (DTYPE_TO_BOUND uint8)) = false.
Proof.
  apply (set_get_trunc_saturate uint8 raster_u8 [zeros_u8] [3] (Fin (7 # 2))).
  - exact raster_u8_of.
  - left. reflexivity.
  - repeat constructor; lia.
  - discriminate.
Defined.

(** ** What uint16 and uint32 rasters store *)

(** X20.  On a uint16 or uint32 raster (of width [w]), whose registry
    entry is the signed range, [set] of an integer followed by [get] returns
    the integer clamped into [-2^(w-1), 2^(w-1) - 1] and then reduced
    modulo [2^w]: values above [2^(w-1) - 1] read back as [2^(w-1) - 1] and
    negative values wrap around. *)
Theorem set_get_wide_unsigned (d : dtype) (w : Z) (r : NdRaster) (h : heap)
    (position : list Z) (z : Z) :
  raster_of d r h ->
  (d = uint16 /\ w = 16) \/ (d = uint32 /\ w = 32) ->
  valid_position r position ->
  exists h',
    set r h position (VNum (of_Z z)) = Ok h'
    /\ get r h' position
       = Ok (VNum (of_Z (Z.max (- 2 ^ (w - 1)) (Z.min (2 ^ (w - 1) - 1) z)
                         mod 2 ^ w))).
Proof.
  intros Hr Hd Hp.
  destruct (ro_data _ _ _ Hr) as (a & Ha & _).
  assert (forall lo hi,
             lo <= hi ->
             set_bounded {| b_min := of_Z lo; b_max := of_Z hi |} (VNum (of_Z z))
             = VNum (of_Z (Z.max lo (Z.min hi z)))) as Hclamp.
  { intros lo hi Hlh. unfold set_bounded, val_lt, val_gt, num_gt. simpl.
    rewrite !Qlt_bool_inject.
    destruct (Z.ltb_spec hi z); destruct (Z.ltb_spec z lo); do 2 f_equal; lia. }
  assert (ta_convert d (set_bounded (DTYPE_TO_BOUND d) (VNum (of_Z z)))
          = Ok (VNum (of_Z (Z.max (- 2 ^ (w - 1)) (Z.min (2 ^ (w - 1) - 1) z)
                            mod 2 ^ w)))) as Hconv.
  { destruct Hd as [[-> ->]|[-> ->]].
    - change (DTYPE_TO_BOUND uint16)
        with {| b_min := of_Z (- 2 ^ (16 - 1)); b_max := of_Z (2 ^ (16 - 1) - 1) |}.
      rewrite Hclamp by lia. simpl ta_convert. unfold to_int, of_Z at 1.
      rewrite Qtrunc_inject. reflexivity.
    - change (DTYPE_TO_BOUND uint32)
        with {| b_min := of_Z (- 2 ^ (32 - 1)); b_max := of_Z (2 ^ (32 - 1) - 1) |}.
      rewrite Hclamp by lia. simpl ta_convert. unfold to_int, of_Z at 1.
      rewrite Qtrunc_inject. reflexivity. }
  destruct (set_get d r h position (VNum (of_Z z)) _ a Hr Ha Hp eq_refl Hconv)
    as (_ & Hset & Hget).
  eexists. split; [exact Hset|exact Hget].
Qed.

Lemma set_get_wide_unsigned_witness :
  exists h',
    set raster_u16 [zeros_u16] [1] (VNum (of_Z (-5))) = Ok h'
    /\ get raster_u16 h' [1]
       = Ok (VNum (of_Z (Z.max (- 2 ^ (16 - 1)) (Z.min (2 ^ (16 - 1) - 1) (-5))
                         mod 2 ^ 16))).
Proof.
  apply (set_get_wide_unsigned uint16 16 raster_u16 [zeros_u16] [1] (-5)).
  - split; try reflexivity. exists zeros_u16. repeat split.
  - left. split; reflexivity.
  - repeat constructor; lia.
Defined.

(** ** Slicing rasters of Numbers *)

Lemma ta_convert_number (t : dtype) (x : number) :
  number_kind t -> exists e, ta_convert t (VNum x) = Ok e.
Proof. intros [H1 H2]. destruct t; simpl; eauto; contradiction. Qed.

Lemma convertible_numbers (d t : dtype) (r : NdRaster) (h : heap)
    (a : typedarray) (min max : list Z) :
  raster_of d r h -> h !! _data r = Some a -> holds_numbers a ->
  box_inside min max (_shape r) -> number_kind t ->
  convertible r h min max t.
Proof.
  intros Hr Ha Hnum Hin Ht q v Hq Hget.
  pose proof (in_box_valid _ _ _ _ Hin Hq) as Hv.
  rewrite (get_valid _ _ _ Hv) in Hget. injection Hget as <-.
  rewrite (deref_lookup _ _ _ Ha).
  pose proof (dataOffset_range _ _ Hv) as Hoff.
  rewrite <- (ro_strides _ _ _ Hr) in Hoff. fold (dataOffset r q) in Hoff.
  destruct (ro_data _ _ _ Hr) as (a0 & Ha0 & _ & Htot).
  rewrite Ha in Ha0. injection Ha0 as <-.
  rewrite Htot in Hoff. unfold ta_length in Hoff.
  unfold ta_get. destruct (dataOffset r q <? 0) eqn:E; [lia|].
  destruct (lookup_lt_is_Some_2 (ta_elems a) (Z.to_nat (dataOffset r q))) as [e He];
    [lia|].
  rewrite He. simpl.
  unfold holds_numbers in Hnum. rewrite Forall_forall in Hnum.
  destruct (Hnum e) as [x ->]; [eapply list_elem_of_lookup_2; exact He|].
  apply ta_convert_number. exact Ht.
Qed.

(** X21.  On a raster with at least one dimension whose data are Numbers,
    [slice] of a non-empty box inside the raster into any dtype but uint64
    and int64 (strict or not) does not fail: it returns a raster of shape
    [max - min] of the target dtype. *)
Theorem slice_numbers (d t : dtype) (r : NdRaster) (h : heap) (a : typedarray)
    (min max : list Z) (s : option string) (strict : bool) (fuel : nat) :
  raster_of d r h ->
  h !! _data r = Some a -> holds_numbers a ->
  _shape r <> [] ->
  box_inside min max (_shape r) ->
  match s with Some s => dtype_of_string s = Some t | None => t = d end ->
  number_kind t ->
  (Z.to_nat (shape_total (box_shape min max)) <= fuel)%nat ->
  exists r' h',
    slice fuel r h {| s_min := Some min; s_max := Some max; s_dtype := s;
                      s_strict := strict |} = Some (Ok (r', h'))
    /\ raster_of t r' h' /\ _shape r' = box_shape min max.
Proof.
  intros Hr Ha Hnum Hne Hin Hs Ht Hfuel.
  destruct (slice_box d t r h min max s strict fuel Hr Hin Hs Hfuel)
    as (res & Hres & Hok & Hsucc).
  destruct (Hsucc Hne (convertible_numbers d t r h a min max Hr Ha Hnum Hin Ht))
    as (r' & h' & ->).
  exists r', h'. split; [exact Hres|].
  destruct (Hok r' h' eq_refl) as (H1 & H2 & _). split; assumption.
Qed.

Lemma slice_numbers_witness :
  exists r' h',
    slice 4 raster_grid [grid_f64]
      {| s_min := Some [1; 1]; s_max := Some [3; 3]; s_dtype := Some "uint8"%string;
         s_strict := false |} = Some (Ok (r', h'))
    /\ raster_of uint8 r' h' /\ _shape r' = box_shape [1; 1] [3; 3].
Proof.
  apply (slice_numbers float64 uint8 raster_grid [grid_f64] grid_f64 [1; 1] [3; 3]
           (Some "uint8"%string) false 4).
  - split; try reflexivity. exists grid_f64. repeat split.
  - reflexivity.
  - unfold holds_numbers. simpl. repeat constructor; eexists; reflexivity.
  - discriminate.
  - repeat constructor; lia.
  - reflexivity.
  - split; discriminate.
  - vm_compute. lia.
Defined.

(** ** The bound test of the iterator is lazy *)

(** X22.  When the last component of a position can be incremented within
    its bounds, [getNextPosition] returns the position with that component
    incremented, whatever the other components are: they are neither tested
    nor changed. *)
Theorem getNextPosition_last (position min max : list Z) (p mn mx : Z) :
  min !! length position = Some mn ->
  max !! length position = Some mx ->
  mn <= p -> p + 1 < mx ->
  getNextPosition (position ++ [p]) min max = Some (position ++ [p + 1]).
Proof.
  intros Hmn Hmx Hlo Hhi. unfold getNextPosition.
  rewrite length_app, Nat.add_1_r. simpl.
  rewrite lookup_app_r, Nat.sub_diag by lia. simpl.
  rewrite Hmn, Hmx. simpl.
  destruct (p <? mn) eqn:E1; [lia|]. destruct (mx <=? p) eqn:E2; [lia|].
  destruct (mx <=? p + 1) eqn:E3; [lia|]. simpl.
  rewrite insert_app_r_alt, Nat.sub_diag by lia. reflexivity.
Qed.

Lemma getNextPosition_last_witness :
  getNextPosition ([-3; 100] ++ [0]) [0; 0; 0] [2; 2; 2] = Some ([-3; 100] ++ [0 + 1]).
Proof.
  apply (getNextPosition_last [-3; 100] [0; 0; 0] [2; 2; 2] 0 0 2);
    try reflexivity; lia.
Defined.

(** ** Empty and inverted boxes, one dimension *)

Lemma get_number (d : dtype) (r : NdRaster) (h : heap) (a : typedarray)
    (q : list Z) :
  raster_of d r h -> h !! _data r = Some a -> holds_numbers a ->
  valid_position r q -> exists x, get r h q = Ok (VNum x).
Proof.
  intros Hr Ha Hnum Hv. rewrite (get_valid _ _ _ Hv), (deref_lookup _ _ _ Ha).
  pose proof (dataOffset_range _ _ Hv) as Hoff.
  rewrite <- (ro_strides _ _ _ Hr) in Hoff. fold (dataOffset r q) in Hoff.
  destruct (ro_data _ _ _ Hr) as (a0 & Ha0 & _ & Htot).
  rewrite Ha in Ha0. injection Ha0 as <-.
  rewrite Htot in Hoff. unfold ta_length in Hoff.
  unfold ta_get. destruct (dataOffset r q <? 0) eqn:E; [lia|].
  destruct (lookup_lt_is_Some_2 (ta_elems a) (Z.to_nat (dataOffset r q))) as [e He];
    [lia|].
  rewrite He. simpl.
  unfold holds_numbers in Hnum. rewrite Forall_forall in Hnum.
  destruct (Hnum e) as [x ->]; [eapply list_elem_of_lookup_2; exact He|]. eauto.
Qed.

(** X23.  Non-strict [slice] (without dtype option) of a raster of one
    dimension with [n >= 1] Numbers, with boundaries [a] and [b] clamped to
    [a' = max(a, 0)] and [b' = min(b, n)]: when [a' > b'] a RangeError is
    raised (negative length); when [a' = b' < n] the result is an empty
    raster of shape [0]; when [a' = b' = n] the out-of-bound position error
    is raised. *)
Theorem slice_1d_degenerate (d : dtype) (r : NdRaster) (h : heap)
    (a0 : typedarray) (n a b : Z) (fuel : nat) :
  raster_of d r h ->
  h !! _data r = Some a0 -> holds_numbers a0 -> number_kind d ->
  _shape r = [n] -> 1 <= n ->
  let a' := Z.max a 0 in
  let b' := Z.min b n in
  let o := {| s_min := Some [a]; s_max := Some [b]; s_dtype := None;
              s_strict := false |} in
  (b' < a' -> slice fuel r h o = Some (Err RangeError))
  /\ (a' = b' -> b' < n ->
      slice (S fuel) r h o
      = Some (Ok ({| _data := length h; _dtype := Some d; _shape := [0];
                     _strides := [1];
                     _typeBound := Some (DTYPE_TO_BOUND d) |},
                  h ++ [{| ta_dtype := d; ta_elems := [] |}])))
  /\ (a' = b' -> b' = n ->
      slice (S fuel) r h o = Some (Err (ErrPositionOutOfBound 0))).
Proof.
  intros Hr Ha0 Hnum Hkind Hshape Hn a' b' o. unfold slice, o.
  cbn [s_min s_max s_dtype s_strict default from_option id].
  rewrite (ro_dtype _ _ _ Hr), Hshape. cbn [length Nat.eqb negb orb map zip_with].
  fold a' b'. cbn [reduce_mul fold_left bind].
  split; [|split].
  - intros Hlt. unfold ta_new.
    destruct (b' - a' <? 0) eqn:E; [reflexivity|lia].
  - intros Heq Hlt. unfold ta_new.
    destruct (b' - a' <? 0) eqn:E; [lia|].
    replace (b' - a') with 0 by lia. cbn [Z.to_nat replicate].
    rewrite slice_loop_step.
    assert (valid_position r [a']) as Hv
      by (unfold valid_position; rewrite Hshape; repeat constructor; lia).
    destruct (get_number d r h a0 [a'] Hr Ha0 Hnum Hv) as [x ->].
    destruct (ta_convert_number d x Hkind) as [e He].
    unfold ta_set. cbn [ta_dtype]. rewrite He. cbn [bind ta_length ta_elems length].
    cbn [Z.of_nat Z.ltb Z.leb Z.compare orb].
    unfold getNextPosition. cbn [length getNextPosition_loop lookup list_lookup default from_option id].
    unfold lt_opt, ge_opt.
    destruct (a' <? a') eqn:E1; [lia|]. destruct (b' <=? a') eqn:E2; [|lia].
    cbn [orb]. unfold alloc.
    change (replicate (Z.to_nat 0) (ta_zero d)) with (@nil value).
    change (ta_length {| ta_dtype := d; ta_elems := [] |} <=? 0) with true. cbv iota.
    rewrite (construct_over (h ++ [{| ta_dtype := d; ta_elems := [] |}]) (length h)
               {| ta_dtype := d; ta_elems := [] |} [0])
      by (rewrite lookup_app_r, Nat.sub_diag by lia; reflexivity).
    reflexivity.
  - intros Heq Hb. unfold ta_new.
    destruct (b' - a' <? 0) eqn:E; [lia|].
    rewrite slice_loop_step.
    unfold get, _throwIfInvalidPosition. rewrite Hshape. simpl.
    destruct (a' <? 0) eqn:E1; [lia|]. destruct (n - 1 <? a') eqn:E2; [|lia].
    reflexivity.
Qed.

Lemma slice_1d_degenerate_witness :
  slice 0 raster_wide [wide_f64]
    {| s_min := Some [5]; s_max := Some [1]; s_dtype := None; s_strict := false |}
  = Some (Err RangeError)
  /\ slice 1 raster_wide [wide_f64]
       {| s_min := Some [1]; s_max := Some [1]; s_dtype := None; s_strict := false |}
     = Some (Ok ({| _data := length [wide_f64]; _dtype := Some float64; _shape := [0];
                    _strides := [1];
                    _typeBound := Some (DTYPE_TO_BOUND float64) |},
                 [wide_f64] ++ [{| ta_dtype := float64; ta_elems := [] |}]))
  /\ slice 1 raster_wide [wide_f64]
       {| s_min := Some [2]; s_max := Some [7]; s_dtype := None; s_strict := false |}
     = Some (Err (ErrPositionOutOfBound 0)).
Proof.
  assert (raster_of float64 raster_wide [wide_f64]) as Hr
    by (split; try reflexivity; exists wide_f64; repeat split).
  assert (holds_numbers wide_f64) as Hnum
    by (unfold holds_numbers; simpl; repeat constructor; eexists; reflexivity).
  assert (number_kind float64) as Hk by (split; discriminate).
  split; [|split].
  - apply (proj1 (slice_1d_degenerate float64 raster_wide [wide_f64] wide_f64 2 5 1 0
                    Hr eq_refl Hnum Hk eq_refl ltac:(lia))). simpl. lia.
  - apply (proj1 (proj2 (slice_1d_degenerate float64 raster_wide [wide_f64] wide_f64
                           2 1 1 0 Hr eq_refl Hnum Hk eq_refl ltac:(lia))));
      simpl; lia.
  - apply (proj2 (proj2 (slice_1d_degenerate float64 raster_wide [wide_f64] wide_f64
                           2 2 7 0 Hr eq_refl Hnum Hk eq_refl ltac:(lia))));
      simpl; lia.
Defined.
